(** * The lobby of the octapod challenge: handshake, scheduler and rendering

    A shallow embedding of [internal/lobby.go].  The lobby owns a registry of
    octapods (a Go map from lower-cased id to [*Octapod]), a maze, and a
    background cycle that alternates [Update] and [TimeoutUpdate].

    Conventions of the embedding:
    - Go [int] is a 64-bit two's complement integer: a [Z] with the
      wrap-around written out ([wrap]).
    - A [*websocket.Conn] is a pointer: a [ConnPtr] into the store [conns] of
      the world; [nil] is [None].
    - The registry never removes or replaces an entry, so the pointer stored
      under a key is stable: the snapshot slices of [Update] and
      [TimeoutUpdate] hold keys, and a dereference is a lookup.
    - The order in which Go ranges over a map is unspecified: every function
      that ranges over the registry takes the order as an argument
      ([ranges]).
    - A mutex-protected region is one atomic piece of the model; the pieces
      of [identifyOctapod] are separate definitions, so that statements about
      the second one hold from any state another goroutine may have left. *)

From Stdlib Require Import ZArith Lia Ascii String.
From stdpp Require Import gmap strings list fin_maps.

Local Open Scope string_scope.

(** ** Go integers and strings *)

Definition int_max : Z := 2 ^ 63 - 1.
Definition int_min : Z := - 2 ^ 63.

(** The value of a Go [int] after an arithmetic operation whose mathematical
    result is [z]. *)
Definition wrap (z : Z) : Z := ((z + 2 ^ 63) mod 2 ^ 64 - 2 ^ 63)%Z.

Definition LF : string := String "010"%char EmptyString.

(** [strings.ToLower] on the bytes of the string: the ASCII capitals are
    mapped to small letters; bytes outside ASCII are kept (Go maps the
    Unicode capitals as well). *)
Definition lower_byte (a : ascii) : ascii :=
  let n := nat_of_ascii a in
  if (65 <=? n)%nat && (n <=? 90)%nat then ascii_of_nat (n + 32) else a.

Fixpoint ToLower (s : string) : string :=
  match s with
  | EmptyString => EmptyString
  | String a s' => String (lower_byte a) (ToLower s')
  end.

(** A function that may panic (an index or a slice out of range). *)
Inductive outcome (A : Type) : Type :=
| Returns (a : A)
| Panics.
Arguments Returns {A} a.
Arguments Panics {A}.

Definition obind {A B} (r : outcome A) (k : A -> outcome B) : outcome B :=
  match r with
  | Returns a => k a
  | Panics => Panics
  end.

(** ** Data model *)

Record Point := mkPoint { X : Z; Y : Z }.

Global Instance Point_eq_dec : EqDecision Point.
Proof. solve_decision. Defined.

Global Instance Point_countable : Countable Point.
Proof.
  refine (inj_countable' (fun p => (X p, Y p)) (fun q => mkPoint q.1 q.2) _).
  intros []; reflexivity.
Defined.

(** The maze: [cells[x][y]] is true for a wall. *)
Record Maze := mkMaze { Width : Z; Height : Z; cells : list (list bool) }.

(** Wire messages. *)
Record AuthMessage := mkAuth { ID : string; Password : string }.
Record ErrorMessage := mkError { Error : string }.

Definition TextMessage : Z := 1.

(** What [conn.ReadMessage] gives: an error, or a message type and content. *)
Inductive ReadResult :=
| ReadFails (err : string)
| ReadGives (msgType : Z) (content : string).

Definition ConnPtr := nat.

(** The state of one websocket connection.
    - [pending]: what the first [ReadMessage] on it yields;
    - [writeErr]: the error [WriteMessage] returns while the connection is
      open ([None] when the peer can be written to);
    - [closed]: [Close] has been called;
    - [writes]: every payload handed to [WriteMessage], oldest first, with
      whether the write succeeded. *)
Record ConnState := mkConn {
  pending : ReadResult;
  writeErr : option string;
  closed : bool;
  writes : list (ErrorMessage * bool)
}.

Definition errClosed : string := "use of closed network connection".

(** What [upgrader.Upgrade] gives. *)
Inductive UpgradeResult :=
| UpgradeFails (err : string)
| Upgraded (conn : ConnPtr).

(** ** A state monad

    The functions of the lobby act on shared state; they are written in a
    state monad. *)

Definition State (S A : Type) : Type := S -> A * S.

Definition ret {S A} (a : A) : State S A := fun w => (a, w).
Definition bind {S A B} (m : State S A) (k : A -> State S B) : State S B :=
  fun w => let (a, w') := m w in k a w'.
Definition exec {S A} (m : State S A) (w : S) : S := (m w).2.
Definition eval {S A} (m : State S A) (w : S) : A := (m w).1.

Notation "'do' x <- m ; k" := (bind m (fun x => k))
  (at level 10, x name, m at level 100, k at level 200).
Notation "'run' m ; k" := (bind m (fun _ => k))
  (at level 10, m at level 100, k at level 200).

Fixpoint forM_ {S A} (l : list A) (body : A -> State S unit) : State S unit :=
  match l with
  | [] => ret tt
  | a :: l' => run body a; forM_ l' body
  end.

(** ** A small instance, for the examples

    A maze of two by two cells with one wall, a fixed place for new
    octapods, and a decoder of authentication messages written as
    [id:password]. *)

Definition smallMaze : Maze := mkMaze 2 2 [[false; true]; [false; false]].

Definition origin (mz : Maze) : Point := mkPoint 0 0.

Fixpoint splitColon (s : string) : option (string * string) :=
  match s with
  | EmptyString => None
  | String c s' =>
      if Ascii.eqb c ":"%char then Some (EmptyString, s')
      else match splitColon s' with
           | Some (a, b) => Some (String c a, b)
           | None => None
           end
  end.

Definition colonUnmarshal (content : string) : string + AuthMessage :=
  match splitColon content with
  | Some (id, password) => inr (mkAuth id password)
  | None => inl "unexpected end of JSON input"
  end.

(** A connection just accepted, whose peer can be written to. *)
Definition accepted (first : ReadResult) : ConnState :=
  mkConn first None false [].

(** A connection just accepted, whose peer is gone. *)
Definition dropped (first : ReadResult) (err : string) : ConnState :=
  mkConn first (Some err) false [].

Section Lobby.

Set Default Proof Using "Type".

(** The sensor payload and the parts of the maze package that lobby.go calls
    are not in lobby.go: they are parameters. *)
Variable Reading : Type.
Variable GetSensor : Maze -> Point -> Reading.
(** [NewMaze(width, height)] followed by [Generate()]. *)
Variable NewMaze : Z -> Z -> Maze.
Variable Print : Maze -> string.
(** Where [NewOctapod] puts a new octapod in the maze. *)
Variable spawn : Maze -> Point.
(** [json.Unmarshal] into an [AuthMessage]: an error text or the message. *)
Variable Unmarshal : string -> string + AuthMessage.

(** An octapod.  [Sensor] is the channel: the values sent on it, oldest
    first ([None] is the nil marker).  [Position] is kept as the pair of
    ints that [DisplayMaze] reads ([int(o.Position.X())],
    [int(o.Position.Y())]). *)
Record Octapod := mkOctapod {
  Id : string;
  Secret : string;
  Conn : option ConnPtr;
  Position : Point;
  InactiveCount : Z;
  Sensor : list (option Reading)
}.

(** The lobby.  [DiscordBot] is kept as the messages sent to the bot,
    oldest first; the mutex is in the atomicity of the definitions. *)
Record Lobby := mkLobby {
  DiscordBot : list string;
  maze : Maze;
  Octapods : gmap string Octapod;
  timerRunning : bool
}.

(** The lobby together with what it acts on: the connections, the log, the
    standard output, the scheduler goroutines started so far and the
    octapods handed to their processing loop ([Run]), oldest first. *)
Record World := mkWorld {
  lobby : Lobby;
  conns : gmap ConnPtr ConnState;
  logs : list string;
  stdout : list string;
  cycles : nat;
  handoffs : list string
}.

Definition UpdateInterval : Z := 1 * 15 * 1000000000.
Definition TimeoutInterval : Z := 1 * 1000000000.
Definition MaxInactive : Z := 2.

Abbreviation M := (State World).

Definition with_lobby (f : Lobby -> Lobby) : M unit :=
  fun w => (tt, mkWorld (f (lobby w)) (conns w) (logs w) (stdout w)
                        (cycles w) (handoffs w)).

Definition with_conns (f : gmap ConnPtr ConnState -> gmap ConnPtr ConnState)
  : M unit :=
  fun w => (tt, mkWorld (lobby w) (f (conns w)) (logs w) (stdout w)
                        (cycles w) (handoffs w)).

Definition logPrintln (line : string) : M unit :=
  fun w => (tt, mkWorld (lobby w) (conns w) (logs w ++ [line]) (stdout w)
                        (cycles w) (handoffs w)).

Definition fmtPrintln (line : string) : M unit :=
  fun w => (tt, mkWorld (lobby w) (conns w) (logs w) (stdout w ++ [line])
                        (cycles w) (handoffs w)).

(** [go func() { for { ... } }()]: one more scheduler goroutine. *)
Definition goCycle : M unit :=
  fun w => (tt, mkWorld (lobby w) (conns w) (logs w) (stdout w)
                        (S (cycles w)) (handoffs w)).

Definition getLobby : M Lobby := fun w => (lobby w, w).

Definition set_Octapods (m : gmap string Octapod) (l : Lobby) : Lobby :=
  mkLobby (DiscordBot l) (maze l) m (timerRunning l).

Definition set_timerRunning (b : bool) (l : Lobby) : Lobby :=
  mkLobby (DiscordBot l) (maze l) (Octapods l) b.

(** [l.DiscordBot.SendMessage(text)] *)
Definition SendMessage (text : string) : M unit :=
  with_lobby (fun l =>
    mkLobby (DiscordBot l ++ [text]) (maze l) (Octapods l) (timerRunning l)).

(** The octapod stored under a key (a dereference of the registry's
    pointer). *)
Definition deref (k : string) : M (option Octapod) :=
  fun w => (Octapods (lobby w) !! k, w).

Definition store (k : string) (o : Octapod) : M unit :=
  with_lobby (fun l => set_Octapods (<[k := o]> (Octapods l)) l).

(** ** The websocket connection, as lobby.go uses it *)

Definition set_conn (c : ConnPtr) (st : ConnState) : M unit :=
  with_conns (fun m => <[c := st]> m).

(** [conn.ReadMessage()], the first read on the connection. *)
Definition ReadMessage (c : ConnPtr) : M ReadResult :=
  fun w =>
    match conns w !! c with
    | Some st => if closed st then (ReadFails errClosed, w) else (pending st, w)
    | None => (ReadFails errClosed, w)
    end.

(** [conn.WriteMessage(websocket.TextMessage, b)] where [b] is the JSON of
    an [ErrorMessage]; the result is the error, [None] for nil. *)
Definition WriteMessage (c : ConnPtr) (payload : ErrorMessage)
  : M (option string) :=
  fun w =>
    match conns w !! c with
    | Some st =>
        let err := if closed st then Some errClosed else writeErr st in
        let ok := match err with None => true | Some _ => false end in
        let st' := mkConn (pending st) (writeErr st) (closed st)
                          (writes st ++ [(payload, ok)]) in
        (err, exec (set_conn c st') w)
    | None => (Some errClosed, w)
    end.

(** [conn.Close()]; closing twice is an error. *)
Definition Close (c : ConnPtr) : M (option string) :=
  fun w =>
    match conns w !! c with
    | Some st =>
        if closed st then (Some errClosed, w)
        else (None, exec (set_conn c (mkConn (pending st) (writeErr st) true
                                             (writes st))) w)
    | None => (Some errClosed, w)
    end.

Definition sendErrorAndClose (conn : ConnPtr) (msg : string) : M unit :=
  let errMsg := mkError msg in
  do err <- WriteMessage conn errMsg;
  match err with
  | Some e => logPrintln ("Error sending error message: " ++ e)
  | None =>
      do err <- Close conn;
      match err with
      | Some e => logPrintln ("Error closing connection: " ++ e)
      | None => ret tt
      end
  end.

(** ** The octapod, as lobby.go uses it *)

(** Modelled from the spec: [NewOctapod] is not defined in lobby.go.  A new
    Probe has [secret = password] and [connection] = this stream, and its
    [inactiveCount] starts at 0; its delivery channel has carried nothing
    yet.  Where it stands in the maze is the parameter [spawn]. *)
Definition NewOctapod (id password : string) (conn : ConnPtr) (mz : Maze)
  : Octapod :=
  mkOctapod id password (Some conn) (spawn mz) 0 [].

(** Modelled from the spec: [VerifyPassword] is not defined in lobby.go.
    The password matches the secret. *)
Definition VerifyPassword (o : Octapod) (password : string) : bool :=
  bool_decide (Secret o = password).

Definition set_Conn (c : option ConnPtr) (o : Octapod) : Octapod :=
  mkOctapod (Id o) (Secret o) c (Position o) (InactiveCount o) (Sensor o).

Definition set_InactiveCount (n : Z) (o : Octapod) : Octapod :=
  mkOctapod (Id o) (Secret o) (Conn o) (Position o) n (Sensor o).

Definition set_Sensor (s : list (option Reading)) (o : Octapod) : Octapod :=
  mkOctapod (Id o) (Secret o) (Conn o) (Position o) (InactiveCount o) s.

(** [o.Sensor <- v], with the processing loop of the octapod receiving. *)
Definition send (k : string) (v : option Reading) : M unit :=
  do o <- deref k;
  match o with
  | Some o =>
      store k (set_Sensor (Sensor o ++ [v]) o)
  | None => ret tt
  end.

(** Modelled from the spec: [Run], the processing loop of an octapod, is
    not defined in lobby.go, and the spec leaves it out as an external
    collaborator.  The hand-off is recorded. *)
Definition Run (k : string) : M unit :=
  fun w => (tt, mkWorld (lobby w) (conns w) (logs w) (stdout w) (cycles w)
                        (handoffs w ++ [k])).

(** Modelled from the spec: [Disconnect] is not defined in lobby.go.  It
    closes the connection of the Probe and clears its [connection]
    field. *)
Definition Disconnect (k : string) : M unit :=
  do o <- deref k;
  match o with
  | Some o =>
      match Conn o with
      | Some c => run Close c; store k (set_Conn None o)
      | None => ret tt
      end
  | None => ret tt
  end.

(** ** The handshake *)

Definition getAuthenticationMessage (conn : ConnPtr)
  : M (string + AuthMessage) :=
  do r <- ReadMessage conn;
  match r with
  | ReadFails err =>
      run sendErrorAndClose conn
            ("Error reading authentication message: " ++ err);
      ret (inl err)
  | ReadGives msgType content =>
      if negb (msgType =? TextMessage)%Z then
        run sendErrorAndClose conn
              "Authentication requires a text message with credentials.";
        ret (inl "non-text auth message")
      else
        match Unmarshal content with
        | inl err =>
            run sendErrorAndClose conn
                  "Invalid authentication message format.";
            ret (inl err)
        | inr auth => ret (inr auth)
        end
  end.

(** The part of [identifyOctapod] under the lock of the octapod: verify and
    reconnect.  [id] stands for the pointer read from the registry; the
    registry drops no entry, so the dereference finds the octapod. *)
Definition verifyAndReconnect (id password : string) (conn : ConnPtr)
  : M (option string) :=
  do oct <- deref id;
  match oct with
  | None => ret (Some id)
  | Some oct =>
      if negb (VerifyPassword oct password) then
        run sendErrorAndClose conn "Invalid password for octapod";
        run Close conn;
        ret (Some id)
      else
        match Conn oct with
        | Some _ =>
            run sendErrorAndClose conn "Octapod already connected";
            run Close conn;
            ret (Some id)
        | None =>
            run store id (set_Conn (Some conn) oct);
            run logPrintln ("Octapod [ " ++ id ++ " ] reconnected");
            run SendMessage ("Octapod [" ++ id ++ "] reconnected");
            ret (Some id)
        end
  end.

(** [identifyOctapod]; the result is the pointer it returns ([None] for
    nil), as the key of the octapod. *)
Definition identifyOctapod (id password : string) (conn : ConnPtr)
  : M (option string) :=
  do l <- getLobby;
  match Octapods l !! id with
  | None =>
      let oct := NewOctapod id password conn (maze l) in
      run store id oct;
      run logPrintln ("New octapod [ " ++ id ++ " ] registered");
      run SendMessage ("New octapod [" ++ id ++ "] registered");
      run Run id;
      ret (Some id)
  | Some _ => verifyAndReconnect id password conn
  end.

Definition HandleJoin (up : UpgradeResult) : M unit :=
  match up with
  | UpgradeFails err => logPrintln err
  | Upgraded conn =>
      run logPrintln "New connection established";
      do r <- getAuthenticationMessage conn;
      match r with
      | inl err => logPrintln err
      | inr auth =>
          run logPrintln "Received an octapod authentication message";
          do o <- identifyOctapod (ToLower (ID auth)) (Password auth) conn;
          match o with
          | None => ret tt
          | Some k => Run k
          end
      end
  end.

(** ** The scheduler *)

(** An order in which [for _, o := range l.Octapods] may visit the
    registry.  The loops below run over such an order; a key of the
    snapshot is registered, so its dereference finds the octapod. *)
Definition ranges (l : Lobby) (order : list string) : Prop :=
  order ≡ₚ (map_to_list (Octapods l)).*1.

(** The body of the second loop of [Update], for the octapod [o] of the
    snapshot that the key [k] stands for. *)
Definition updateOne (mz : Maze) (k : string) : M unit :=
  do o <- deref k;
  match o with
  | None => ret tt
  | Some o =>
      match Conn o with
      | None => ret tt
      | Some _ =>
          run store k (set_InactiveCount (wrap (InactiveCount o + 1)) o);
          let s := GetSensor mz (Position o) in
          run send k (Some s);
          logPrintln ("Sensor data sent to octapod [ " ++ Id o ++ " ]")
      end
  end.

Definition Update (order : list string) : M unit :=
  do l <- getLobby;
  let pods := order in
  forM_ pods (updateOne (maze l)).

(** The body of the second loop of [TimeoutUpdate]. *)
Definition timeoutOne (k : string) : M unit :=
  do o <- deref k;
  match o with
  | None => ret tt
  | Some o =>
      match Conn o with
      | None => ret tt
      | Some _ =>
          run send k None;
          run logPrintln ("Timeout signal sent to octapod " ++ Id o);
          do o <- deref k;
          match o with
          | None => ret tt
          | Some o =>
              if (MaxInactive <=? InactiveCount o)%Z then
                run Disconnect k;
                logPrintln ("Octapod [ " ++ Id o
                            ++ " ] disconnected due to inactivity")
              else ret tt
          end
      end
  end.

Definition TimeoutUpdate (order : list string) : M unit :=
  let pods := order in
  forM_ pods timeoutOne.

(** ** Rendering *)

Definition pointOf (o : Octapod) : Point :=
  mkPoint (X (Position o)) (Y (Position o)).

(** The body of the first loop of [DisplayMaze]. *)
Definition place (id : string) (positions : gmap Point Octapod) (o : Octapod)
  : gmap Point Octapod :=
  if decide (id = EmptyString) then <[pointOf o := o]> positions
  else if decide (Id o = ToLower id) then <[pointOf o := o]> positions
  else positions.

Definition octapodPositions (pods : list Octapod) (id : string)
  : gmap Point Octapod :=
  foldl (place id) ∅ pods.

(** [for i := 0; i < n; i++ { result += body(i) }], where the body may
    panic. *)
Fixpoint appendEach (body : nat -> outcome string) (idx : list nat)
  (result : string) : outcome string :=
  match idx with
  | [] => Returns result
  | i :: rest => obind (body i) (fun s => appendEach body rest (result ++ s))
  end.

Definition upto (n : Z) : list nat := seq 0 (Z.to_nat n).

(** What one cell adds to the result. *)
Definition cell (mz : Maze) (positions : gmap Point Octapod) (y x : nat)
  : outcome string :=
  match cells mz !! x with
  | None => Panics
  | Some column =>
      match column !! y with
      | None => Panics
      | Some true => Returns "# "
      | Some false =>
          match positions !! mkPoint (Z.of_nat x) (Z.of_nat y) with
          | Some octapod =>
              match Id octapod with
              | EmptyString => Panics
              | String c _ => Returns (String c EmptyString ++ " ")
              end
          | None => Returns "  "
          end
      end
  end.

(** What one row adds to the result. *)
Definition row (mz : Maze) (positions : gmap Point Octapod) (y : nat)
  : outcome string :=
  obind (appendEach (cell mz positions y) (upto (Width mz)) EmptyString)
        (fun cellsOfRow => Returns (cellsOfRow ++ "# " ++ LF)).

Definition render (mz : Maze) (positions : gmap Point Octapod)
  : outcome string :=
  obind (appendEach (row mz positions) (upto (Height mz)) EmptyString)
    (fun result =>
  obind (appendEach (fun _ => Returns "# ") (upto (Width mz)) result)
    (fun result =>
  let result := result ++ "# " ++ LF in
  Returns ("```" ++ LF ++ result ++ "```"))).

Definition DisplayMaze (order : list string) (id : string) (l : Lobby)
  : outcome string :=
  let pods := omap (fun k => Octapods l !! k) order in
  let positions := octapodPositions pods id in
  if decide (size positions = 0%nat) then
    if decide (id = EmptyString) then Returns "No octapods in the lobby."
    else Returns ("No octapods [" ++ id ++ "] in the lobby.")
  else render (maze l) positions.

(** ** The timer *)

Definition StartTimer (timeout : Z) : M unit :=
  do l <- getLobby;
  if timerRunning l then logPrintln "Timer already running."
  else
    run with_lobby (set_timerRunning true);
    goCycle.

(** The variables of the goroutine of [StartTimer]. *)
Record Cycle := mkCycle { t : Z; isTimeout : bool }.

Definition firstCycle : Cycle := mkCycle UpdateInterval false.

(** One turn of the loop of the goroutine, after the timer has fired.
    [order] is the order of the snapshot, [orderD] the one of the
    rendering. *)
Definition cycleTurn (timeout : Z) (order orderD : list string) (c : Cycle)
  (w : World) : outcome (Cycle * World) :=
  if negb (isTimeout c) then
    let w := exec (run Update order;
                   logPrintln "Sensor data pinged (Update)") w in
    Returns (mkCycle timeout (negb (isTimeout c)), w)
  else
    let w := exec (run TimeoutUpdate order; logPrintln "Timeout update") w in
    obind (DisplayMaze orderD EmptyString (lobby w)) (fun board =>
    let w := exec (SendMessage ("Board updated:" ++ LF ++ board)) w in
    Returns (mkCycle UpdateInterval (negb (isTimeout c)), w)).

Definition NewLobby (width height : Z) : World :=
  let mz := NewMaze width height in
  let lobby := mkLobby [] mz ∅ false in
  exec (run fmtPrintln (Print mz); StartTimer TimeoutInterval)
       (mkWorld lobby ∅ [] [] 0 []).

(** The world after [NewLobby] on a given maze, with connections accepted
    since. *)
Definition started (mz : Maze) (cs : gmap ConnPtr ConnState) : World :=
  mkWorld (mkLobby [] mz ∅ true) cs [] [] 1 [].

(** ** Vocabulary of the statements *)

(** [WriteMessage] on a connection in this state succeeds. *)
Definition writable (st : ConnState) : bool :=
  negb (closed st) && match writeErr st with None => true | Some _ => false end.

(** A connection after a rejection by [identifyOctapod]: the error response
    was handed to [WriteMessage] (and written if the connection was
    writable), and the connection is closed. *)
Definition reject (msg : string) (st : ConnState) : ConnState :=
  mkConn (pending st) (writeErr st) true
         (writes st ++ [(mkError msg, writable st)]).

(** A connection after [sendErrorAndClose] alone. *)
Definition errorSent (msg : string) (st : ConnState) : ConnState :=
  mkConn (pending st) (writeErr st) (closed st || writable st)
         (writes st ++ [(mkError msg, writable st)]).

(** The first message on a connection in this state makes the handshake
    abort: the read fails, or the message is not a text message, or it does
    not parse.  The result is the text of the error response. *)
Definition badFirstMessage (st : ConnState) : option string :=
  if closed st then
    Some ("Error reading authentication message: " ++ errClosed)
  else
    match pending st with
    | ReadFails err => Some ("Error reading authentication message: " ++ err)
    | ReadGives msgType content =>
        if negb (msgType =? TextMessage)%Z then
          Some "Authentication requires a text message with credentials."
        else
          match Unmarshal content with
          | inl _ => Some "Invalid authentication message format."
          | inr _ => None
          end
    end.

(** The calls that reach the lobby from outside: a request on the join
    endpoint, the two phases of the cycle, and a start of the timer. *)
Inductive Call :=
| JoinCall (up : UpgradeResult)
| UpdateCall (order : list string)
| TimeoutCall (order : list string)
| StartTimerCall (timeout : Z).

Definition call (c : Call) : M unit :=
  match c with
  | JoinCall up => HandleJoin up
  | UpdateCall order => Update order
  | TimeoutCall order => TimeoutUpdate order
  | StartTimerCall timeout => StartTimer timeout
  end.

Definition calls (cs : list Call) : M unit := forM_ cs call.

(** Every octapod of [w] is still registered in [w'], with the same value
    of the field [f]. *)
Definition keeps {B} (f : Octapod -> B) (w w' : World) : Prop :=
  forall k o, Octapods (lobby w) !! k = Some o ->
    exists o', Octapods (lobby w') !! k = Some o' /\ f o' = f o.

Definition preserves {A B} (f : Octapod -> B) (m : M A) : Prop :=
  forall w, keeps f w (exec m w).

(** What the update phase does to one octapod of the snapshot. *)
Definition bump (mz : Maze) (o : Octapod) : Octapod :=
  match Conn o with
  | None => o
  | Some _ =>
      mkOctapod (Id o) (Secret o) (Conn o) (Position o)
                (wrap (InactiveCount o + 1))
                (Sensor o ++ [Some (GetSensor mz (Position o))])
  end.

(** What the timeout phase does to one octapod of the snapshot. *)
Definition expire (o : Octapod) : Octapod :=
  match Conn o with
  | None => o
  | Some _ =>
      mkOctapod (Id o) (Secret o)
                (if (MaxInactive <=? InactiveCount o)%Z then None else Conn o)
                (Position o) (InactiveCount o) (Sensor o ++ [None])
  end.

(** A connection after [Close]. *)
Definition shut (st : ConnState) : ConnState :=
  mkConn (pending st) (writeErr st) true (writes st).

(** The connection that the timeout phase closes for an octapod, if any. *)
Definition overdue (o : Octapod) : option ConnPtr :=
  match Conn o with
  | Some c => if (MaxInactive <=? InactiveCount o)%Z then Some c else None
  | None => None
  end.

(** The connections that the timeout phase closes, over a snapshot. *)
Definition evicted (m : gmap string Octapod) (order : list string)
  : list ConnPtr :=
  omap (fun k => m !! k ≫= overdue) order.

(** The first loop of [DisplayMaze] puts this octapod on the board. *)
Definition shown (id : string) (o : Octapod) : Prop :=
  id = EmptyString \/ Id o = ToLower id.

(** The filter matches the id of the octapod, whatever the case of the
    letters. *)
Definition matches (id : string) (o : Octapod) : Prop :=
  ToLower (Id o) = ToLower id.

(** [needle] occurs in [s]. *)
Definition contains (s needle : string) : Prop :=
  exists before after, s = before ++ needle ++ after.

Global Instance shown_dec (id : string) (o : Octapod) : Decision (shown id o).
Proof. unfold shown. apply _. Defined.

(** No two octapods of the registry are on the same cell: the cells of the
    registered octapods are a list without repetition. *)
Definition apart (l : Lobby) : Prop :=
  NoDup (pointOf <$> (map_to_list (Octapods l)).*2).

Global Instance apart_dec (l : Lobby) : Decision (apart l).
Proof. unfold apart. apply _. Defined.

Global Instance ranges_dec (l : Lobby) (order : list string)
  : Decision (ranges l order).
Proof. unfold ranges. apply _. Defined.

(** The cells of the maze cover its width and height. *)
Definition covered (mz : Maze) : Prop :=
  forall x, (x < Z.to_nat (Width mz))%nat ->
    exists column, cells mz !! x = Some column
      /\ forall y, (y < Z.to_nat (Height mz))%nat -> is_Some (column !! y).

(** Every key of the registry is lower-case and is the id of the octapod
    stored under it. *)
Definition tidy (w : World) : Prop :=
  forall k o, Octapods (lobby w) !! k = Some o -> Id o = k /\ ToLower k = k.

(** The timer runs, [n] scheduler goroutines have been started, the maze is
    [mz], and the registry is tidy. *)
Definition steadyState (n : nat) (mz : Maze) (w : World) : Prop :=
  timerRunning (lobby w) = true /\ cycles w = n /\ maze (lobby w) = mz
  /\ tidy w.

Definition maintains {A} (P : World -> Prop) (m : M A) : Prop :=
  forall w, P w -> P (exec m w).


(** The octapod is not on an open cell of the board: it is outside the
    width and height of the maze, or on a wall. *)
Definition hidden (mz : Maze) (o : Octapod) : Prop :=
  forall x y column,
    pointOf o = mkPoint (Z.of_nat x) (Z.of_nat y) ->
    (x < Z.to_nat (Width mz))%nat -> (y < Z.to_nat (Height mz))%nat ->
    cells mz !! x = Some column -> column !! y <> Some false.


(** * Properties *)

(** ** The state monad *)

Lemma exec_bind {A B} (m : M A) (k : A -> M B) (w : World) :
  exec (bind m k) w = exec (k (eval m w)) (exec m w).
Proof. unfold exec, eval, bind. destruct (m w); reflexivity. Qed.

Lemma eval_bind {A B} (m : M A) (k : A -> M B) (w : World) :
  eval (bind m k) w = eval (k (eval m w)) (exec m w).
Proof. unfold exec, eval, bind. destruct (m w); reflexivity. Qed.

Lemma exec_ret {A} (a : A) (w : World) : exec (ret a : M A) w = w.
Proof. reflexivity. Qed.

Lemma exec_forM_cons {A} (a : A) (l : list A) (body : A -> M unit) w :
  exec (forM_ (a :: l) body) w = exec (forM_ l body) (exec (body a) w).
Proof. simpl. rewrite exec_bind. reflexivity. Qed.

(** ** The timer *)

Lemma StartTimer_running (w : World) (timeout : Z) :
  timerRunning (lobby (exec (StartTimer timeout) w)) = true.
Proof.
  unfold StartTimer, exec, bind, getLobby; simpl.
  destruct (timerRunning (lobby w)) eqn:E; simpl; [exact E | reflexivity].
Qed.

Lemma StartTimer_guard (w : World) (timeout : Z) :
  timerRunning (lobby w) = true ->
  exec (StartTimer timeout) w
  = mkWorld (lobby w) (conns w) (logs w ++ ["Timer already running."])
            (stdout w) (cycles w) (handoffs w).
Proof.
  intros E. unfold StartTimer, exec, bind, getLobby; simpl.
  rewrite E. reflexivity.
Qed.

(** C7. A call to [StartTimer] while the timer is already running logs
    "Timer already running." and returns: the lobby, the connections, the
    standard output and the hand-offs are the same, and no further
    scheduler goroutine is started. *)
Theorem StartTimer_idempotent (w : World) (timeout : Z) :
  timerRunning (lobby w) = true ->
  let w' := exec (StartTimer timeout) w in
  lobby w' = lobby w /\ conns w' = conns w /\ stdout w' = stdout w
  /\ handoffs w' = handoffs w
  /\ cycles w' = cycles w
  /\ logs w' = (logs w ++ ["Timer already running."])%list.
Proof.
  intros E w'. subst w'. rewrite (StartTimer_guard w timeout E). simpl.
  repeat split.
Qed.

(** Whatever the state, a second start adds no goroutine to the ones the
    first start left. *)
Lemma StartTimer_twice (w : World) (t1 t2 : Z) :
  let w1 := exec (StartTimer t1) w in
  cycles (exec (StartTimer t2) w1) = cycles w1
  /\ lobby (exec (StartTimer t2) w1) = lobby w1.
Proof.
  intros w1. subst w1.
  rewrite (StartTimer_guard _ t2 (StartTimer_running w t1)). simpl. auto.
Qed.

(** [NewLobby] starts the one cycle of the process. *)
Lemma NewLobby_one_cycle (width height : Z) :
  cycles (NewLobby width height) = 1%nat
  /\ timerRunning (lobby (NewLobby width height)) = true.
Proof. split; reflexivity. Qed.

(** ** Connections *)

Lemma sendErrorAndClose_exec (w : World) (conn : ConnPtr) (msg : string)
  (st : ConnState) :
  conns w !! conn = Some st ->
  let w' := exec (sendErrorAndClose conn msg) w in
  lobby w' = lobby w
  /\ conns w' = <[conn := errorSent msg st]> (conns w)
  /\ stdout w' = stdout w /\ cycles w' = cycles w
  /\ handoffs w' = handoffs w.
Proof.
  intros Hst. unfold sendErrorAndClose, WriteMessage, Close, exec, bind.
  simpl. rewrite Hst. unfold errorSent, writable.
  destruct st as [p [e|] [|] ws]; simpl; rewrite ?lookup_insert_eq; simpl;
    rewrite ?insert_insert_eq; repeat split.
Qed.

(** [sendErrorAndClose] followed by [conn.Close()], as in the rejections
    of [identifyOctapod]. *)
Lemma reject_exec (w : World) (conn : ConnPtr) (msg : string)
  (st : ConnState) :
  conns w !! conn = Some st ->
  let w' := exec (run sendErrorAndClose conn msg; Close conn) w in
  lobby w' = lobby w
  /\ conns w' = <[conn := reject msg st]> (conns w)
  /\ stdout w' = stdout w /\ cycles w' = cycles w
  /\ handoffs w' = handoffs w.
Proof.
  intros Hst w'. subst w'. rewrite exec_bind.
  destruct (sendErrorAndClose_exec w conn msg st Hst)
    as (Hl & Hc & Ho & Hy & Hh).
  set (w1 := exec (sendErrorAndClose conn msg) w) in Hl, Hc, Ho, Hy, Hh |- *.
  unfold Close, exec. rewrite Hc, lookup_insert_eq.
  unfold errorSent, reject, writable.
  destruct st as [p [e|] [|] ws]; simpl; rewrite ?Hc; unfold errorSent;
    simpl; rewrite ?insert_insert_eq; repeat split; assumption.
Qed.

Lemma lobby_Close (c : ConnPtr) (w : World) :
  lobby (exec (Close c) w) = lobby w.
Proof.
  unfold Close, exec.
  destruct (conns w !! c) as [st|]; [destruct (closed st)|]; reflexivity.
Qed.

Lemma lobby_sendErrorAndClose (c : ConnPtr) (msg : string) (w : World) :
  lobby (exec (sendErrorAndClose c msg) w) = lobby w.
Proof.
  unfold sendErrorAndClose, WriteMessage. unfold exec, bind.
  destruct (conns w !! c) as [st|] eqn:E; simpl; [|reflexivity].
  destruct st as [p [e|] [|] ws]; simpl; try reflexivity.
  unfold Close. simpl. rewrite lookup_insert_eq. reflexivity.
Qed.

(** ** Fields that the lobby never writes *)

Section Keeps.

Context {B : Type} (f : Octapod -> B).

Lemma keeps_refl w : keeps f w w.
Proof. intros k o H. eauto. Qed.

Lemma keeps_trans w1 w2 w3 : keeps f w1 w2 -> keeps f w2 w3 -> keeps f w1 w3.
Proof.
  intros H12 H23 k o H. destruct (H12 k o H) as (o2 & H2 & E2).
  destruct (H23 k o2 H2) as (o3 & H3 & E3). exists o3. split; congruence.
Qed.

Lemma keeps_same_lobby w w' : lobby w' = lobby w -> keeps f w w'.
Proof. intros E k o H. rewrite E. eauto. Qed.

Lemma preserves_ret {A} (a : A) : preserves f (ret a : M A).
Proof. intros w. apply keeps_refl. Qed.

Lemma preserves_bind {A C} (m : M A) (k : A -> M C) :
  preserves f m -> (forall a, preserves f (k a)) -> preserves f (bind m k).
Proof.
  intros Hm Hk w. rewrite exec_bind.
  eapply keeps_trans; [apply Hm | apply Hk].
Qed.

Lemma preserves_forM {A} (l : list A) (body : A -> M unit) :
  (forall a, preserves f (body a)) -> preserves f (forM_ l body).
Proof.
  intros Hb. induction l as [|a l IH]; simpl.
  - apply preserves_ret.
  - apply preserves_bind; auto.
Qed.

Lemma preserves_frame {A} (m : M A) :
  (forall w, lobby (exec m w) = lobby w) -> preserves f m.
Proof. intros H w. apply keeps_same_lobby, H. Qed.

Lemma preserves_logPrintln line : preserves f (logPrintln line).
Proof. apply preserves_frame. reflexivity. Qed.

Lemma preserves_Run k : preserves f (Run k).
Proof. apply preserves_frame. reflexivity. Qed.

Lemma preserves_SendMessage text : preserves f (SendMessage text).
Proof. intros w k o H. simpl. eauto. Qed.

Lemma preserves_Close c : preserves f (Close c).
Proof. apply preserves_frame, lobby_Close. Qed.

Lemma preserves_sendErrorAndClose c msg : preserves f (sendErrorAndClose c msg).
Proof. apply preserves_frame, lobby_sendErrorAndClose. Qed.

Lemma preserves_getAuthenticationMessage c :
  preserves f (getAuthenticationMessage c).
Proof.
  unfold getAuthenticationMessage. apply preserves_bind.
  - apply preserves_frame. intros w. unfold ReadMessage, exec.
    destruct (conns w !! c) as [st|]; [destruct (closed st)|]; reflexivity.
  - intros [err|msgType content].
    + apply preserves_bind; [apply preserves_sendErrorAndClose|].
      intros; apply preserves_ret.
    + destruct (negb (msgType =? TextMessage)%Z).
      * apply preserves_bind; [apply preserves_sendErrorAndClose|].
        intros; apply preserves_ret.
      * destruct (Unmarshal content).
        -- apply preserves_bind; [apply preserves_sendErrorAndClose|].
           intros; apply preserves_ret.
        -- apply preserves_ret.
Qed.

(** Storing, under a key, the octapod found there with [f] unchanged. *)
Lemma keeps_store w k o o' :
  Octapods (lobby w) !! k = Some o -> f o' = f o ->
  keeps f w (exec (store k o') w).
Proof.
  intros H E k' o0 H0. simpl. destruct (decide (k = k')) as [<-|Hne].
  - rewrite lookup_insert_eq. exists o'. split; congruence.
  - rewrite lookup_insert_ne by assumption. eauto.
Qed.

(** Storing under a key that is not registered. *)
Lemma keeps_store_fresh w k o' :
  Octapods (lobby w) !! k = None -> keeps f w (exec (store k o') w).
Proof.
  intros H k' o0 H0. simpl. destruct (decide (k = k')) as [<-|Hne].
  - congruence.
  - rewrite lookup_insert_ne by assumption. eauto.
Qed.

Lemma preserves_send k v :
  (forall s o, f (set_Sensor s o) = f o) -> preserves f (send k v).
Proof.
  intros Hf w. unfold send. rewrite exec_bind. unfold deref at 2, eval. simpl.
  destruct (Octapods (lobby w) !! k) as [o|] eqn:E.
  - apply (keeps_store w k o _ E). apply Hf.
  - apply keeps_refl.
Qed.

Lemma preserves_Disconnect k :
  (forall c o, f (set_Conn c o) = f o) -> preserves f (Disconnect k).
Proof.
  intros Hf w. unfold Disconnect. rewrite exec_bind.
  unfold deref at 2, eval. simpl.
  destruct (Octapods (lobby w) !! k) as [o|] eqn:E; [|apply keeps_refl].
  destruct (Conn o) as [c|]; [|apply keeps_refl].
  rewrite exec_bind. eapply keeps_trans; [apply preserves_Close|].
  apply (keeps_store _ k o); [|apply Hf].
  rewrite lobby_Close. exact E.
Qed.

End Keeps.

Section KeepsCalls.

Context {B : Type} (f : Octapod -> B).
Hypothesis f_Conn : forall c o, f (set_Conn c o) = f o.
Hypothesis f_Sensor : forall s o, f (set_Sensor s o) = f o.

Lemma preserves_verifyAndReconnect id password conn :
  preserves f (verifyAndReconnect id password conn).
Proof using f_Conn.
  intros w. unfold verifyAndReconnect. rewrite exec_bind.
  unfold deref at 2, eval. simpl.
  destruct (Octapods (lobby w) !! id) as [oct|] eqn:E; [|apply keeps_refl].
  destruct (negb (VerifyPassword oct password)).
  { apply preserves_bind; [apply preserves_sendErrorAndClose|]. intros _.
    apply preserves_bind; [apply preserves_Close|]. intros _.
    apply preserves_ret. }
  destruct (Conn oct) as [c|].
  { apply preserves_bind; [apply preserves_sendErrorAndClose|]. intros _.
    apply preserves_bind; [apply preserves_Close|]. intros _.
    apply preserves_ret. }
  rewrite exec_bind. eapply keeps_trans.
  - eapply (keeps_store f w id oct); [exact E | apply f_Conn].
  - apply preserves_bind; [apply preserves_logPrintln|]. intros _.
    apply preserves_bind; [apply preserves_SendMessage|]. intros _.
    apply preserves_ret.
Qed.

Lemma preserves_identifyOctapod id password conn :
  preserves f (identifyOctapod id password conn).
Proof using f_Conn.
  intros w. unfold identifyOctapod. rewrite exec_bind.
  unfold getLobby at 2, eval. simpl. unfold getLobby, exec at 2. simpl.
  destruct (Octapods (lobby w) !! id) as [oct|] eqn:E.
  - apply preserves_verifyAndReconnect.
  - rewrite exec_bind. eapply keeps_trans.
    + eapply (keeps_store_fresh f w id); exact E.
    + apply preserves_bind; [apply preserves_logPrintln|]. intros _.
      apply preserves_bind; [apply preserves_SendMessage|]. intros _.
      apply preserves_bind; [apply preserves_Run|]. intros _.
      apply preserves_ret.
Qed.

Lemma preserves_HandleJoin up : preserves f (HandleJoin up).
Proof using f_Conn.
  destruct up as [err|conn]; simpl; [apply preserves_logPrintln|].
  apply preserves_bind; [apply preserves_logPrintln|]. intros _.
  apply preserves_bind; [apply preserves_getAuthenticationMessage|].
  intros [err|auth]; [apply preserves_logPrintln|].
  apply preserves_bind; [apply preserves_logPrintln|]. intros _.
  apply preserves_bind; [apply preserves_identifyOctapod|].
  intros [k|]; [apply preserves_Run | apply preserves_ret].
Qed.

Lemma preserves_TimeoutUpdate order : preserves f (TimeoutUpdate order).
Proof using f_Conn f_Sensor.
  unfold TimeoutUpdate. apply preserves_forM. intros k w. unfold timeoutOne.
  rewrite exec_bind. unfold deref at 2, eval. simpl.
  destruct (Octapods (lobby w) !! k) as [o|] eqn:E; [|apply keeps_refl].
  destruct (Conn o) as [c|]; [|apply keeps_refl].
  apply preserves_bind; [apply preserves_send, f_Sensor|]. intros _.
  apply preserves_bind; [apply preserves_logPrintln|]. intros _.
  apply preserves_bind; [apply preserves_frame; reflexivity|].
  intros [o'|]; [|apply preserves_ret].
  destruct (MaxInactive <=? InactiveCount o')%Z; [|apply preserves_ret].
  apply preserves_bind; [apply preserves_Disconnect, f_Conn|]. intros _.
  apply preserves_logPrintln.
Qed.

Lemma preserves_StartTimer timeout : preserves f (StartTimer timeout).
Proof.
  intros w k o H. unfold StartTimer, exec, bind, getLobby. simpl.
  destruct (timerRunning (lobby w)); simpl; eauto.
Qed.

Hypothesis f_InactiveCount : forall n o, f (set_InactiveCount n o) = f o.

Lemma preserves_Update order : preserves f (Update order).
Proof using f_InactiveCount f_Sensor.
  unfold Update. apply preserves_bind; [apply preserves_frame; reflexivity|].
  intros l. apply preserves_forM. intros k w. unfold updateOne.
  rewrite exec_bind. unfold deref at 2, eval. simpl.
  destruct (Octapods (lobby w) !! k) as [o|] eqn:E; [|apply keeps_refl].
  destruct (Conn o) as [c|]; [|apply keeps_refl].
  rewrite exec_bind. eapply keeps_trans.
  - eapply (keeps_store f w k o); [exact E | apply f_InactiveCount].
  - apply preserves_bind; [apply preserves_send, f_Sensor|]. intros _.
    apply preserves_logPrintln.
Qed.

Lemma preserves_calls cs : preserves f (calls cs).
Proof using f_Conn f_InactiveCount f_Sensor.
  unfold calls. apply preserves_forM. intros [up|order|order|timeout]; simpl.
  - apply preserves_HandleJoin.
  - apply preserves_Update.
  - apply preserves_TimeoutUpdate.
  - apply preserves_StartTimer.
Qed.

End KeepsCalls.

(** ** The handshake *)

Lemma verifyAndReconnect_rejects_lobby (w : World) (id password : string)
  (conn : ConnPtr) (oct : Octapod) :
  Octapods (lobby w) !! id = Some oct ->
  VerifyPassword oct password = false \/ Conn oct <> None ->
  lobby (exec (verifyAndReconnect id password conn) w) = lobby w.
Proof.
  intros Ho Hcase. unfold verifyAndReconnect. rewrite exec_bind.
  unfold deref at 2, eval. simpl. rewrite Ho.
  destruct (VerifyPassword oct password) eqn:Hv; simpl.
  - destruct (Conn oct) as [c|] eqn:Hc; [|destruct Hcase; congruence].
    rewrite !exec_bind, exec_ret, lobby_Close.
    apply lobby_sendErrorAndClose.
  - rewrite !exec_bind, exec_ret, lobby_Close.
    apply lobby_sendErrorAndClose.
Qed.

Lemma identifyOctapod_new (w : World) (id password : string) (conn : ConnPtr) :
  Octapods (lobby w) !! id = None ->
  let w' := exec (identifyOctapod id password conn) w in
  eval (identifyOctapod id password conn) w = Some id
  /\ Octapods (lobby w')
     = <[id := NewOctapod id password conn (maze (lobby w))]>
         (Octapods (lobby w))
  /\ conns w' = conns w
  /\ handoffs w' = (handoffs w ++ [id])%list
  /\ DiscordBot (lobby w')
     = (DiscordBot (lobby w) ++ [("New octapod [" ++ id ++ "] registered")%string])%list.
Proof.
  intros H. unfold identifyOctapod, exec, eval, bind, getLobby. simpl.
  rewrite H. simpl. repeat split.
Qed.

Lemma identifyOctapod_existing (w : World) (id password : string)
  (conn : ConnPtr) (oct : Octapod) :
  Octapods (lobby w) !! id = Some oct ->
  identifyOctapod id password conn w = verifyAndReconnect id password conn w.
Proof.
  intros H. unfold identifyOctapod, bind, getLobby. rewrite H. reflexivity.
Qed.

Lemma verifyAndReconnect_rejects (w : World) (id password : string)
  (conn : ConnPtr) (oct : Octapod) (st : ConnState) :
  Octapods (lobby w) !! id = Some oct ->
  conns w !! conn = Some st ->
  VerifyPassword oct password = false \/ Conn oct <> None ->
  let msg := if VerifyPassword oct password then "Octapod already connected"
             else "Invalid password for octapod" in
  let w' := exec (verifyAndReconnect id password conn) w in
  lobby w' = lobby w
  /\ conns w' = <[conn := reject msg st]> (conns w)
  /\ cycles w' = cycles w /\ handoffs w' = handoffs w.
Proof.
  intros Ho Hst Hcase msg w'. subst w' msg.
  unfold verifyAndReconnect. rewrite exec_bind.
  unfold deref at 2, eval. simpl. rewrite Ho.
  destruct (VerifyPassword oct password) eqn:Hv; simpl.
  - destruct (Conn oct) as [c|] eqn:Hc; [|destruct Hcase; congruence].
    rewrite exec_bind.
    destruct (reject_exec w conn "Octapod already connected" st Hst)
      as (H1 & H2 & H3 & H4 & H5).
    rewrite exec_bind in H1, H2, H3, H4, H5.
    rewrite ?exec_bind, exec_ret. auto.
  - rewrite exec_bind.
    destruct (reject_exec w conn "Invalid password for octapod" st Hst)
      as (H1 & H2 & H3 & H4 & H5).
    rewrite exec_bind in H1, H2, H3, H4, H5.
    rewrite ?exec_bind, exec_ret. auto.
Qed.

Lemma verifyAndReconnect_attaches (w : World) (id password : string)
  (conn : ConnPtr) (oct : Octapod) :
  Octapods (lobby w) !! id = Some oct ->
  VerifyPassword oct password = true ->
  Conn oct = None ->
  let w' := exec (verifyAndReconnect id password conn) w in
  Octapods (lobby w') = <[id := set_Conn (Some conn) oct]> (Octapods (lobby w))
  /\ conns w' = conns w
  /\ handoffs w' = handoffs w
  /\ DiscordBot (lobby w')
     = (DiscordBot (lobby w) ++ [("Octapod [" ++ id ++ "] reconnected")%string])%list.
Proof.
  intros Ho Hv Hc. unfold verifyAndReconnect, exec, bind, deref. simpl.
  rewrite Ho, Hv, Hc. simpl. repeat split.
Qed.

(** The credential of an id: the secret stored under it. *)
Lemma credential_kept (w : World) (cs : list Call) (id secret : string) :
  Secret <$> Octapods (lobby w) !! id = Some secret ->
  Secret <$> Octapods (lobby (exec (calls cs) w)) !! id = Some secret.
Proof.
  intros H. destruct (Octapods (lobby w) !! id) as [o|] eqn:E; [|discriminate].
  destruct (preserves_calls Secret) with (cs := cs) (w := w) (k := id) (o := o)
    as (o' & Ho' & Es); try reflexivity; [exact E|].
  rewrite Ho'. simpl in H, Es |- *. congruence.
Qed.

(** C1. The first handshake for an id that is not in the registry is never
    rejected: it registers an octapod whose secret is the password given and
    whose connection is the new one, and nothing is written to the
    connection nor is it closed.  After any later calls, a handshake for
    the same id with a different password is rejected: the error response
    is handed to the connection, the connection is closed, and the lobby,
    the stored secret with it, is as before. *)
Theorem first_handshake_fixes_credential
  (w : World) (id password : string) (conn : ConnPtr) (cs : list Call)
  (password' : string) (conn' : ConnPtr) (st : ConnState) :
  Octapods (lobby w) !! id = None ->
  let w1 := exec (identifyOctapod id password conn) w in
  let w2 := exec (calls cs) w1 in
  let w3 := exec (identifyOctapod id password' conn') w2 in
  password' <> password ->
  conns w2 !! conn' = Some st ->
  (exists oct, Octapods (lobby w1) !! id = Some oct
     /\ Secret oct = password /\ Conn oct = Some conn
     /\ conns w1 = conns w)
  /\ (lobby w3 = lobby w2
      /\ conns w3 = <[conn' := reject "Invalid password for octapod" st]>
                      (conns w2))
  /\ Secret <$> Octapods (lobby w3) !! id = Some password.
Proof.
  intros Hnew w1 w2 w3 Hne Hst.
  destruct (identifyOctapod_new w id password conn Hnew)
    as (_ & Hreg & Hconns & _). fold w1 in Hreg, Hconns.
  assert (H1 : Octapods (lobby w1) !! id
               = Some (NewOctapod id password conn (maze (lobby w)))).
  { rewrite Hreg. apply lookup_insert_eq. }
  assert (H2 : Secret <$> Octapods (lobby w2) !! id = Some password).
  { apply credential_kept. rewrite H1. reflexivity. }
  destruct (Octapods (lobby w2) !! id) as [oct|] eqn:E2; [|discriminate].
  simpl in H2. injection H2 as H2.
  assert (Hv : VerifyPassword oct password' = false).
  { unfold VerifyPassword. apply bool_decide_eq_false. congruence. }
  destruct (verifyAndReconnect_rejects w2 id password' conn' oct st E2 Hst
              (or_introl Hv)) as (Hl & Hc & _).
  rewrite Hv in Hc.
  assert (E3 : exec (identifyOctapod id password' conn') w2
               = exec (verifyAndReconnect id password' conn') w2).
  { unfold exec. rewrite (identifyOctapod_existing w2 _ _ _ oct E2).
    reflexivity. }
  split; [|split].
  - eexists. split; [exact H1|]. repeat split. exact Hconns.
  - subst w3. rewrite E3. split; assumption.
  - subst w3. rewrite E3, Hl, E2. simpl. congruence.
Qed.

(** No handshake replaces the connection of a connected octapod: its entry
    in the registry is the same afterwards, whatever id, password and
    connection the handshake brings. *)
Lemma handshake_keeps_connected (w : World) (id password : string)
  (conn : ConnPtr) (k : string) (o : Octapod) :
  Octapods (lobby w) !! k = Some o -> Conn o <> None ->
  Octapods (lobby (exec (identifyOctapod id password conn) w)) !! k = Some o.
Proof.
  intros Ho Hc.
  destruct (Octapods (lobby w) !! id) as [oct|] eqn:E.
  - unfold exec. rewrite (identifyOctapod_existing w _ _ _ oct E).
    change (Octapods (lobby (exec (verifyAndReconnect id password conn) w))
            !! k = Some o).
    destruct (VerifyPassword oct password) eqn:Hv;
      [destruct (Conn oct) as [c|] eqn:Hco|].
    + rewrite (verifyAndReconnect_rejects_lobby w id password conn oct E);
        [exact Ho | right; congruence].
    + destruct (verifyAndReconnect_attaches w id password conn oct E Hv Hco)
        as (Hreg & _). rewrite Hreg.
      rewrite lookup_insert_ne; [exact Ho|]. intros ->. congruence.
    + rewrite (verifyAndReconnect_rejects_lobby w id password conn oct E);
        [exact Ho | left; exact Hv].
  - destruct (identifyOctapod_new w id password conn E) as (_ & Hreg & _).
    rewrite Hreg. rewrite lookup_insert_ne; [exact Ho|]. intros ->. congruence.
Qed.

(** C2, as amended.  A handshake for an id whose octapod has a connection
    is rejected whatever the password: with the password of the octapod
    the error response is "Octapod already connected", with another one
    "Invalid password for octapod".  In both cases the response is handed
    to the new connection, the new connection is closed, and the lobby is
    as before: the octapod keeps the connection it had, and the other
    connections are untouched.  The same holds for the part of the
    handshake under the lock of the octapod, from whatever state. *)
Theorem connected_octapod_rejects_handshake
  (w : World) (id password : string) (conn : ConnPtr) (oct : Octapod)
  (c : ConnPtr) (st : ConnState) :
  Octapods (lobby w) !! id = Some oct ->
  Conn oct = Some c ->
  conns w !! conn = Some st ->
  let msg := if VerifyPassword oct password then "Octapod already connected"
             else "Invalid password for octapod" in
  let w' := exec (identifyOctapod id password conn) w in
  w' = exec (verifyAndReconnect id password conn) w
  /\ lobby w' = lobby w
  /\ Octapods (lobby w') !! id = Some oct
  /\ conns w' = <[conn := reject msg st]> (conns w)
  /\ (forall c', c' <> conn -> conns w' !! c' = conns w !! c').
Proof.
  intros Ho Hc Hst msg w'.
  assert (E : w' = exec (verifyAndReconnect id password conn) w).
  { subst w'. unfold exec. rewrite (identifyOctapod_existing w _ _ _ oct Ho).
    reflexivity. }
  destruct (verifyAndReconnect_rejects w id password conn oct st Ho Hst)
    as (Hl & Hcs & _); [right; congruence|].
  rewrite <- E in Hl, Hcs. repeat split; try assumption.
  - rewrite Hl. exact Ho.
  - intros c' Hne. rewrite Hcs. apply lookup_insert_ne. congruence.
Qed.

(** [identifyOctapod] never returns nil: the test [o == nil] of
    [HandleJoin] never holds, and the octapod is handed to [Run] after a
    rejection as well. *)
Lemma identifyOctapod_returns (w : World) (id password : string)
  (conn : ConnPtr) :
  eval (identifyOctapod id password conn) w = Some id.
Proof.
  unfold identifyOctapod. rewrite eval_bind.
  unfold getLobby at 2, eval at 2. simpl. unfold getLobby, exec. simpl.
  destruct (Octapods (lobby w) !! id) as [oct|] eqn:E.
  - unfold verifyAndReconnect. rewrite eval_bind.
    unfold deref at 2, eval at 2. simpl. rewrite E.
    destruct (negb (VerifyPassword oct password));
      [|destruct (Conn oct)]; rewrite !eval_bind; reflexivity.
  - rewrite !eval_bind. reflexivity.
Qed.

(** Two reconnections of one octapod, both past the lookup in the
    registry: whichever takes the lock of the octapod first attaches its
    connection, and the other one is rejected. *)
Lemma racing_reconnections (w : World) (id password : string)
  (conn1 conn2 : ConnPtr) (oct : Octapod) (st2 : ConnState) :
  Octapods (lobby w) !! id = Some oct ->
  VerifyPassword oct password = true ->
  Conn oct = None ->
  conns w !! conn2 = Some st2 ->
  let w' := exec (run verifyAndReconnect id password conn1;
                  verifyAndReconnect id password conn2) w in
  Octapods (lobby w') !! id = Some (set_Conn (Some conn1) oct)
  /\ conns w' = <[conn2 := reject "Octapod already connected" st2]> (conns w).
Proof.
  intros Ho Hv Hc Hst w'. subst w'. rewrite exec_bind.
  destruct (verifyAndReconnect_attaches w id password conn1 oct Ho Hv Hc)
    as (Hreg & Hconns & _).
  set (w1 := exec (verifyAndReconnect id password conn1) w)
    in Hreg, Hconns |- *.
  assert (Ho1 : Octapods (lobby w1) !! id = Some (set_Conn (Some conn1) oct))
    by (rewrite Hreg; apply lookup_insert_eq).
  assert (Hst1 : conns w1 !! conn2 = Some st2) by (rewrite Hconns; exact Hst).
  destruct (verifyAndReconnect_rejects w1 id password conn2 _ st2 Ho1 Hst1)
    as (Hl & Hcs & _); [right; discriminate|].
  change (VerifyPassword (set_Conn (Some conn1) oct) password)
    with (VerifyPassword oct password) in Hcs.
  rewrite Hv in Hcs. rewrite Hl, Hcs, Hconns. split; [exact Ho1|reflexivity].
Qed.

(** The first message makes the handshake abort. *)
Lemma getAuthenticationMessage_abort (w : World) (conn : ConnPtr)
  (st : ConnState) (msg : string) :
  conns w !! conn = Some st ->
  badFirstMessage st = Some msg ->
  (exists err, eval (getAuthenticationMessage conn) w = inl err)
  /\ exec (getAuthenticationMessage conn) w
     = exec (sendErrorAndClose conn msg) w.
Proof.
  intros Hst Hbad. unfold getAuthenticationMessage.
  rewrite exec_bind, eval_bind.
  assert (Hr : eval (ReadMessage conn) w
               = if closed st then ReadFails errClosed else pending st).
  { unfold ReadMessage, eval. rewrite Hst. destruct (closed st); reflexivity. }
  assert (Hw : exec (ReadMessage conn) w = w).
  { unfold ReadMessage, exec. rewrite Hst. destruct (closed st); reflexivity. }
  rewrite Hr, Hw. unfold badFirstMessage in Hbad.
  destruct (closed st).
  { injection Hbad as <-. rewrite exec_bind, eval_bind, exec_ret. eauto. }
  destruct (pending st) as [err|msgType content].
  { injection Hbad as <-. rewrite exec_bind, eval_bind, exec_ret. eauto. }
  destruct (negb (msgType =? TextMessage)%Z).
  { injection Hbad as <-. rewrite exec_bind, eval_bind, exec_ret. eauto. }
  destruct (Unmarshal content) as [err|auth]; [|discriminate].
  injection Hbad as <-. rewrite exec_bind, eval_bind, exec_ret. eauto.
Qed.

(** The handshake after a bad first message: the error response is handed
    to the connection, no octapod is touched, and none is handed to its
    processing loop.  The connection is closed when the response could be
    written ([errorSent]). *)
Lemma HandleJoin_abort (w : World) (conn : ConnPtr) (st : ConnState)
  (msg : string) :
  conns w !! conn = Some st ->
  badFirstMessage st = Some msg ->
  let w' := exec (HandleJoin (Upgraded conn)) w in
  lobby w' = lobby w
  /\ conns w' = <[conn := errorSent msg st]> (conns w)
  /\ handoffs w' = handoffs w.
Proof.
  intros Hst Hbad w'. subst w'. simpl. rewrite !exec_bind.
  set (w0 := exec (logPrintln "New connection established") w).
  assert (Hst0 : conns w0 !! conn = Some st) by exact Hst.
  destruct (getAuthenticationMessage_abort w0 conn st msg Hst0 Hbad)
    as ((err & He) & Hx).
  rewrite He, Hx.
  destruct (sendErrorAndClose_exec w0 conn msg st Hst0) as (H1 & H2 & _ & _ & H5).
  repeat split; simpl; assumption.
Qed.

(** C4, where the code departs from it.  When the first message makes the
    handshake abort and the error response cannot be written, the
    connection is left open: [sendErrorAndClose] returns after the failed
    write.  The registry is untouched. *)
Theorem handshake_abort_leaves_connection_open
  (w : World) (conn : ConnPtr) (st : ConnState) (msg e : string) :
  conns w !! conn = Some st ->
  closed st = false ->
  writeErr st = Some e ->
  badFirstMessage st = Some msg ->
  let w' := exec (HandleJoin (Upgraded conn)) w in
  lobby w' = lobby w
  /\ conns w' !! conn
     = Some (mkConn (pending st) (writeErr st) false
                    (writes st ++ [(mkError msg, false)])).
Proof.
  intros Hst Hcl He Hbad w'.
  destruct (HandleJoin_abort w conn st msg Hst Hbad) as (Hl & Hc & _).
  fold w' in Hl, Hc. split; [exact Hl|].
  rewrite Hc, lookup_insert_eq. unfold errorSent, writable.
  rewrite Hcl, He. reflexivity.
Qed.

(** When the response can be written, the aborted handshake does close the
    connection. *)
Lemma handshake_abort_closes_writable
  (w : World) (conn : ConnPtr) (st : ConnState) (msg : string) :
  conns w !! conn = Some st ->
  writable st = true ->
  badFirstMessage st = Some msg ->
  let w' := exec (HandleJoin (Upgraded conn)) w in
  lobby w' = lobby w
  /\ conns w' !! conn
     = Some (mkConn (pending st) (writeErr st) true
                    (writes st ++ [(mkError msg, true)])).
Proof.
  intros Hst Hw Hbad w'.
  destruct (HandleJoin_abort w conn st msg Hst Hbad) as (Hl & Hc & _).
  fold w' in Hl, Hc. split; [exact Hl|].
  rewrite Hc, lookup_insert_eq. unfold errorSent. rewrite Hw.
  rewrite orb_true_r. reflexivity.
Qed.

(** ** The snapshot *)

Lemma ranges_NoDup (l : Lobby) (order : list string) :
  ranges l order -> NoDup order.
Proof.
  intros H. unfold ranges in H. rewrite H. apply NoDup_fst_map_to_list.
Qed.

Lemma ranges_elem (l : Lobby) (order : list string) (k : string) :
  ranges l order -> k ∈ order <-> is_Some (Octapods l !! k).
Proof.
  intros H. unfold ranges in H. rewrite H. rewrite list_elem_of_fmap. split.
  - intros ([k' o] & -> & Hin). apply elem_of_map_to_list in Hin. eauto.
  - intros [o Ho]. exists (k, o). split; [reflexivity|].
    apply elem_of_map_to_list. exact Ho.
Qed.

(** ** The update phase *)

Lemma updateOne_lookup (mz : Maze) (k : string) (w : World) :
  (forall k', Octapods (lobby (exec (updateOne mz k) w)) !! k'
     = if decide (k' = k) then bump mz <$> Octapods (lobby w) !! k'
       else Octapods (lobby w) !! k')
  /\ conns (exec (updateOne mz k) w) = conns w
  /\ maze (lobby (exec (updateOne mz k) w)) = maze (lobby w).
Proof.
  unfold updateOne, exec, bind, deref. simpl.
  destruct (Octapods (lobby w) !! k) as [o|] eqn:E; simpl.
  - unfold bump. destruct (Conn o) as [c|] eqn:Ec; simpl.
    + unfold send, bind, deref. simpl.
      rewrite lookup_insert_eq. simpl. rewrite insert_insert_eq.
      repeat split. intros k'. case_decide as Hk.
      * subst k'. rewrite lookup_insert_eq, E. simpl.
        unfold set_Sensor, set_InactiveCount. simpl. rewrite ?Ec.
        reflexivity.
      * rewrite lookup_insert_ne by congruence. reflexivity.
    + repeat split. intros k'. case_decide as Hk; [|reflexivity].
      subst k'. rewrite E. simpl. rewrite Ec. reflexivity.
  - repeat split. intros k'. case_decide as Hk; [|reflexivity].
    subst k'. rewrite E. reflexivity.
Qed.

Lemma Update_lookup (order : list string) (w : World) :
  NoDup order ->
  let w' := exec (Update order) w in
  (forall k, Octapods (lobby w') !! k
     = if decide (k ∈ order)
       then bump (maze (lobby w)) <$> Octapods (lobby w) !! k
       else Octapods (lobby w) !! k)
  /\ conns w' = conns w.
Proof.
  intros Hnd w'. subst w'. unfold Update. rewrite exec_bind.
  unfold getLobby at 2, eval. simpl. unfold getLobby, exec at 2 4. simpl.
  generalize (maze (lobby w)) as mz. intros mz.
  revert w. induction Hnd as [|k rest Hk Hnd IH]; intros w.
  - split; [|reflexivity]. intros k. case_decide as H; [|reflexivity].
    apply elem_of_nil in H. contradiction.
  - rewrite exec_forM_cons.
    destruct (updateOne_lookup mz k w) as (Hb & Hc & _).
    destruct (IH (exec (updateOne mz k) w)) as (IH1 & IH2).
    split; [|congruence].
    intros k'. rewrite IH1, Hb.
    destruct (decide (k' = k)) as [->|Hne].
    + rewrite (decide_False (P := k ∈ rest)) by exact Hk.
      rewrite (decide_True (P := k ∈ k :: rest)) by apply list_elem_of_here.
      reflexivity.
    + destruct (decide (k' ∈ rest)) as [Hin|Hnin].
      * rewrite (decide_True (P := k' ∈ k :: rest))
          by apply list_elem_of_further, Hin.
        reflexivity.
      * rewrite (decide_False (P := k' ∈ k :: rest)); [reflexivity|].
        rewrite elem_of_cons. intros [?|?]; [congruence|contradiction].
Qed.

(** The update phase over a snapshot of the registry. *)
Lemma Update_registry (order : list string) (w : World) :
  ranges (lobby w) order ->
  let w' := exec (Update order) w in
  Octapods (lobby w') = bump (maze (lobby w)) <$> Octapods (lobby w)
  /\ conns w' = conns w.
Proof.
  intros Hr w'.
  destruct (Update_lookup order w (ranges_NoDup _ _ Hr)) as (Hl & Hc).
  split; [|exact Hc]. apply map_eq. intros k. rewrite lookup_fmap.
  fold w' in Hl. rewrite Hl. case_decide as Hin; [reflexivity|].
  rewrite (ranges_elem _ _ k Hr) in Hin.
  destruct (Octapods (lobby w) !! k) eqn:E; [|reflexivity].
  exfalso. apply Hin. eauto.
Qed.

Lemma wrap_small (z : Z) : (int_min <= z <= int_max)%Z -> wrap z = z.
Proof.
  unfold wrap, int_min, int_max. intros H.
  rewrite Z.mod_small by lia. lia.
Qed.

(** C5. In the update phase, over a snapshot of the registry, an octapod
    without a connection is left as it is; for an octapod with a connection
    the count of inactive cycles is incremented (by exactly 1 below the
    largest int), the sensor of the maze is read at its position and the
    reading is delivered on its channel, and nothing else of it changes. *)
Theorem Update_increments_and_delivers
  (w : World) (order : list string) (k : string) (o : Octapod) :
  ranges (lobby w) order ->
  Octapods (lobby w) !! k = Some o ->
  let w' := exec (Update order) w in
  (Conn o = None -> Octapods (lobby w') !! k = Some o)
  /\ (Conn o <> None ->
      exists o', Octapods (lobby w') !! k = Some o'
        /\ InactiveCount o' = wrap (InactiveCount o + 1)
        /\ ((int_min <= InactiveCount o < int_max)%Z ->
            InactiveCount o' = (InactiveCount o + 1)%Z)
        /\ Sensor o'
           = (Sensor o ++ [Some (GetSensor (maze (lobby w)) (Position o))])%list
        /\ Id o' = Id o /\ Secret o' = Secret o /\ Conn o' = Conn o
        /\ Position o' = Position o).
Proof.
  intros Hr Ho w'. destruct (Update_registry order w Hr) as (Hreg & _).
  fold w' in Hreg. rewrite Hreg, lookup_fmap, Ho. simpl. unfold bump.
  split.
  - intros ->. reflexivity.
  - intros Hc. destruct (Conn o) as [c|] eqn:Ec; [|congruence].
    eexists. split; [reflexivity|]. simpl. repeat split; try assumption.
    intros Hrange. apply wrap_small. unfold int_min, int_max in Hrange |- *. lia.
Qed.

(** ** The timeout phase *)

Lemma conns_Close (c : ConnPtr) (w : World) :
  conns (exec (Close c) w) = alter shut c (conns w).
Proof.
  unfold Close, exec. apply map_eq. intros c'.
  rewrite lookup_alter. case_decide as Hc.
  - subst c'. destruct (conns w !! c) as [st|] eqn:E; simpl.
    + destruct st as [p we [|] ws]; simpl.
      * rewrite E. reflexivity.
      * rewrite lookup_insert_eq. reflexivity.
    + rewrite E. reflexivity.
  - destruct (conns w !! c) as [st|] eqn:E; simpl; [|reflexivity].
    destruct (closed st); simpl; [reflexivity|].
    rewrite lookup_insert_ne by congruence. reflexivity.
Qed.

Lemma timeoutOne_lookup (k : string) (w : World) :
  (forall k', Octapods (lobby (exec (timeoutOne k) w)) !! k'
     = if decide (k' = k) then expire <$> Octapods (lobby w) !! k'
       else Octapods (lobby w) !! k')
  /\ conns (exec (timeoutOne k) w)
     = match Octapods (lobby w) !! k ≫= overdue with
       | Some c => alter shut c (conns w)
       | None => conns w
       end.
Proof.
  unfold timeoutOne, exec, bind, deref. simpl.
  destruct (Octapods (lobby w) !! k) as [o|] eqn:E; simpl.
  2:{ split; [|reflexivity]. intros k'. case_decide as Hk; [|reflexivity].
      subst k'. rewrite E. reflexivity. }
  unfold overdue, expire. destruct (Conn o) as [c|] eqn:Ec; simpl.
  2:{ split; [|reflexivity]. intros k'. case_decide as Hk; [|reflexivity].
      subst k'. rewrite E. simpl. rewrite Ec. reflexivity. }
  unfold send, bind, deref. simpl. rewrite E. simpl.
  rewrite lookup_insert_eq. simpl.
  destruct (MaxInactive <=? InactiveCount o)%Z eqn:Em; simpl.
  - unfold Disconnect, bind, deref. simpl. rewrite lookup_insert_eq. simpl.
    rewrite Ec. simpl.
    match goal with |- context [Close c ?w0] =>
      pose proof (conns_Close c w0) as HC;
      pose proof (lobby_Close c w0) as HL;
      unfold exec in HC, HL; destruct (Close c w0) as [r w1] end.
    simpl in HC, HL |- *. rewrite HL. simpl. rewrite insert_insert_eq. split.
    + intros k'. case_decide as Hk.
      * subst k'. rewrite lookup_insert_eq, E. simpl. rewrite ?Ec, ?Em.
        reflexivity.
      * rewrite lookup_insert_ne by congruence. reflexivity.
    + exact HC.
  - split; [|reflexivity]. intros k'. case_decide as Hk.
    + subst k'. rewrite lookup_insert_eq, E. simpl.
      unfold set_Sensor. rewrite ?Ec, ?Em. reflexivity.
    + rewrite lookup_insert_ne by congruence. reflexivity.
Qed.

Lemma evicted_ext (m1 m2 : gmap string Octapod) (order : list string) :
  (forall k, k ∈ order -> m1 !! k = m2 !! k) ->
  evicted m1 order = evicted m2 order.
Proof.
  induction order as [|k rest IH]; intros H; [reflexivity|].
  unfold evicted, omap in IH |- *. simpl.
  rewrite (H k) by apply list_elem_of_here.
  rewrite IH; [reflexivity|]. intros k' Hk'. apply H.
  apply list_elem_of_further, Hk'.
Qed.

Lemma TimeoutUpdate_lookup (order : list string) (w : World) :
  NoDup order ->
  let w' := exec (TimeoutUpdate order) w in
  (forall k, Octapods (lobby w') !! k
     = if decide (k ∈ order) then expire <$> Octapods (lobby w) !! k
       else Octapods (lobby w) !! k)
  /\ (forall c, conns w' !! c
        = if decide (c ∈ evicted (Octapods (lobby w)) order)
          then shut <$> conns w !! c else conns w !! c).
Proof.
  intros Hnd w'. subst w'. unfold TimeoutUpdate.
  revert w. induction Hnd as [|k rest Hk Hnd IH]; intros w.
  - split; intros x; (case_decide as H; [|reflexivity]);
      apply elem_of_nil in H; contradiction.
  - rewrite exec_forM_cons.
    destruct (timeoutOne_lookup k w) as (Hb & Hc).
    destruct (IH (exec (timeoutOne k) w)) as (IH1 & IH2).
    assert (Hev : evicted (Octapods (lobby (exec (timeoutOne k) w))) rest
                  = evicted (Octapods (lobby w)) rest).
    { apply evicted_ext. intros k' Hk'. rewrite Hb.
      apply decide_False. intros ->. contradiction. }
    split.
    + intros k'. rewrite IH1, Hb.
      destruct (decide (k' = k)) as [->|Hne].
      * rewrite (decide_False (P := k ∈ rest)) by exact Hk.
        rewrite (decide_True (P := k ∈ k :: rest)) by apply list_elem_of_here.
        reflexivity.
      * destruct (decide (k' ∈ rest)) as [Hin|Hnin].
        -- rewrite (decide_True (P := k' ∈ k :: rest))
             by apply list_elem_of_further, Hin.
           reflexivity.
        -- rewrite (decide_False (P := k' ∈ k :: rest)); [reflexivity|].
           rewrite elem_of_cons. intros [?|?]; [congruence|contradiction].
    + intros c. rewrite IH2, Hev, Hc. unfold evicted at 3. simpl.
      fold (evicted (Octapods (lobby w)) rest).
      destruct (Octapods (lobby w) !! k ≫= overdue) as [c0|]; [|reflexivity].
      rewrite lookup_alter.
      destruct (decide (c ∈ evicted (Octapods (lobby w)) rest)) as [Hin|Hnin].
      * rewrite (decide_True (P := c ∈ c0 :: _))
          by apply list_elem_of_further, Hin.
        case_decide as Hc0; [|reflexivity]. subst c0.
        destruct (conns w !! c); reflexivity.
      * destruct (decide (c0 = c)) as [->|Hne].
        -- rewrite (decide_True (P := c ∈ c :: _)) by apply list_elem_of_here.
           reflexivity.
        -- rewrite (decide_False (P := c ∈ c0 :: _)); [reflexivity|].
           rewrite elem_of_cons. intros [?|?]; congruence.
Qed.

Lemma elem_of_evicted (m : gmap string Octapod) (order : list string)
  (c : ConnPtr) :
  c ∈ evicted m order <->
  exists k o, k ∈ order /\ m !! k = Some o /\ overdue o = Some c.
Proof.
  unfold evicted. rewrite list_elem_of_omap. split.
  - intros (k & Hk & Hc). destruct (m !! k) as [o|] eqn:E; [|discriminate].
    eauto.
  - intros (k & o & Hk & Ho & Hc). exists k. rewrite Ho. auto.
Qed.

(** C6. In the timeout phase, over a snapshot of the registry, an octapod
    without a connection is left as it is; every octapod with a connection
    is sent the nil marker, whatever its count; after that the octapods
    whose count is at least [MaxInactive] have no connection and their
    connection is closed, and the others keep theirs.  A connection that
    no overdue octapod holds is as before. *)
Theorem TimeoutUpdate_evicts_overdue
  (w : World) (order : list string) (k : string) (o : Octapod) :
  ranges (lobby w) order ->
  Octapods (lobby w) !! k = Some o ->
  let w' := exec (TimeoutUpdate order) w in
  (Conn o = None -> Octapods (lobby w') !! k = Some o)
  /\ (forall c, Conn o = Some c ->
      exists o', Octapods (lobby w') !! k = Some o'
        /\ Sensor o' = (Sensor o ++ [None])%list
        /\ Id o' = Id o /\ Secret o' = Secret o /\ Position o' = Position o
        /\ InactiveCount o' = InactiveCount o
        /\ ((MaxInactive <= InactiveCount o)%Z ->
            Conn o' = None
            /\ forall st, conns w !! c = Some st ->
                 conns w' !! c = Some (shut st))
        /\ ((InactiveCount o < MaxInactive)%Z -> Conn o' = Some c))
  /\ (forall c,
        (forall k' o', Octapods (lobby w) !! k' = Some o' ->
           Conn o' = Some c -> (InactiveCount o' < MaxInactive)%Z) ->
        conns w' !! c = conns w !! c).
Proof.
  intros Hr Ho w'.
  destruct (TimeoutUpdate_lookup order w (ranges_NoDup _ _ Hr)) as (Hl & Hc).
  fold w' in Hl, Hc.
  assert (Hin : k ∈ order) by (apply (ranges_elem _ _ k Hr); eauto).
  specialize (Hl k). rewrite (decide_True (P := k ∈ order)) in Hl by exact Hin.
  rewrite Ho in Hl. simpl in Hl. unfold expire in Hl.
  split; [|split].
  - intros E. rewrite E in Hl. exact Hl.
  - intros c E. rewrite E in Hl. eexists. split; [exact Hl|]. simpl.
    do 5 (split; [reflexivity|]). split.
    + intros Hle. apply Z.leb_le in Hle. rewrite Hle. split; [reflexivity|].
      intros st Hst. rewrite Hc, Hst.
      rewrite (decide_True (P := c ∈ _)); [reflexivity|].
      apply elem_of_evicted. exists k, o. repeat split; try assumption.
      unfold overdue. rewrite E, Hle. reflexivity.
    + intros Hlt. apply Z.leb_gt in Hlt. rewrite Hlt. reflexivity.
  - intros c Hall. rewrite Hc. apply decide_False.
    rewrite elem_of_evicted. intros (k' & o' & _ & Ho' & Hov).
    unfold overdue in Hov. destruct (Conn o') as [c'|] eqn:Ec; [|discriminate].
    destruct (MaxInactive <=? InactiveCount o')%Z eqn:Em; [|discriminate].
    injection Hov as ->. apply Z.leb_le in Em.
    specialize (Hall k' o' Ho' Ec). lia.
Qed.

(** ** Rendering *)

Lemma lower_byte_idem (a : ascii) : lower_byte (lower_byte a) = lower_byte a.
Proof. destruct a as [[] [] [] [] [] [] [] []]; reflexivity. Qed.

Lemma ToLower_idem (s : string) : ToLower (ToLower s) = ToLower s.
Proof.
  induction s as [|a s IH]; simpl; [reflexivity|].
  rewrite lower_byte_idem, IH. reflexivity.
Qed.

Lemma place_not_shown (id : string) (m : gmap Point Octapod) (o : Octapod) :
  ~ shown id o -> place id m o = m.
Proof.
  intros H. unfold place.
  destruct (decide (id = EmptyString)) as [E|E];
    [exfalso; apply H; left; exact E|].
  destruct (decide (Id o = ToLower id)) as [E'|E'];
    [exfalso; apply H; right; exact E' | reflexivity].
Qed.

Lemma place_shown (id : string) (m : gmap Point Octapod) (o : Octapod) :
  shown id o -> place id m o = <[pointOf o := o]> m.
Proof.
  intros [E|E]; unfold place.
  - rewrite decide_True by exact E. reflexivity.
  - destruct (decide (id = EmptyString)); [reflexivity|].
    rewrite decide_True by exact E. reflexivity.
Qed.

Lemma octapodPositions_none (id : string) (pods : list Octapod) :
  (forall o, o ∈ pods -> ~ shown id o) -> octapodPositions pods id = ∅.
Proof.
  unfold octapodPositions. generalize (∅ : gmap Point Octapod) as m.
  induction pods as [|o pods IH]; intros m H; [reflexivity|]. simpl.
  rewrite place_not_shown by (apply H, list_elem_of_here).
  apply IH. intros o' Ho'. apply H, list_elem_of_further, Ho'.
Qed.

Lemma snapshot_elem (l : Lobby) (order : list string) (o : Octapod) :
  o ∈ omap (fun k => Octapods l !! k) order ->
  exists k, Octapods l !! k = Some o.
Proof. intros H. apply list_elem_of_omap in H as (k & _ & Hk). eauto. Qed.

Lemma DisplayMaze_nothing_shown (l : Lobby) (order : list string)
  (id : string) :
  (forall k o, Octapods l !! k = Some o -> ~ shown id o) ->
  DisplayMaze order id l
  = if decide (id = EmptyString) then Returns "No octapods in the lobby."
    else Returns ("No octapods [" ++ id ++ "] in the lobby.").
Proof.
  intros H. unfold DisplayMaze. rewrite octapodPositions_none.
  - rewrite map_size_empty. reflexivity.
  - intros o Ho. apply snapshot_elem in Ho as (k & Hk). eapply H, Hk.
Qed.


(** The board of [DisplayMaze] as a map built from a list: of the octapods
    shown, in the order of the range, the last one on a cell stays. *)
Lemma octapodPositions_list_to_map (pods : list Octapod) (id : string) :
  octapodPositions pods id
  = list_to_map (reverse ((fun o => (pointOf o, o)) <$> filter (shown id) pods)).
Proof.
  unfold octapodPositions. induction pods as [|o pods IH] using rev_ind.
  - reflexivity.
  - rewrite foldl_snoc, IH, filter_app, fmap_app, reverse_app.
    destruct (decide (shown id o)) as [Hs|Hs].
    + rewrite place_shown by exact Hs.
      rewrite (filter_cons_True _ _ _ Hs). reflexivity.
    + rewrite place_not_shown by exact Hs.
      rewrite (filter_cons_False _ _ _ Hs). reflexivity.
Qed.

Lemma omap_lookup_fst (m : gmap string Octapod) (L : list (string * Octapod)) :
  (forall k o, (k, o) ∈ L -> m !! k = Some o) ->
  omap (fun k => m !! k) (L.*1) = L.*2.
Proof.
  induction L as [|[k o] L IH]; intros H; [reflexivity|].
  rewrite !fmap_cons. simpl. unfold omap in IH |- *. simpl.
  rewrite (H k o) by apply list_elem_of_here.
  rewrite IH; [reflexivity|]. intros k' o' Hin.
  apply H, list_elem_of_further, Hin.
Qed.

(** The octapods of a range over the registry are its values. *)
Lemma snapshot_values (l : Lobby) (order : list string) :
  ranges l order ->
  omap (fun k => Octapods l !! k) order ≡ₚ (map_to_list (Octapods l)).*2.
Proof.
  intros H. unfold ranges in H. rewrite H.
  rewrite omap_lookup_fst; [reflexivity|].
  intros k o Hin. apply elem_of_map_to_list, Hin.
Qed.

Lemma NoDup_fmap_filter {A C} (g : A -> C) (P : A -> Prop)
  `{forall x, Decision (P x)} (l : list A) :
  NoDup (g <$> l) -> NoDup (g <$> filter P l).
Proof.
  induction l as [|x l IH]; intros Hnd; [constructor|].
  rewrite fmap_cons in Hnd. apply NoDup_cons in Hnd as [Hx Hnd].
  destruct (decide (P x)) as [Hp|Hp].
  - rewrite (filter_cons_True _ _ _ Hp), fmap_cons. apply NoDup_cons.
    split; [|apply IH, Hnd]. intros Hin. apply Hx.
    apply list_elem_of_fmap in Hin as (y & -> & Hy).
    apply list_elem_of_fmap. exists y. split; [reflexivity|].
    apply list_elem_of_filter in Hy as [_ Hy]. exact Hy.
  - rewrite (filter_cons_False _ _ _ Hp). apply IH, Hnd.
Qed.

(** [apart] says that the octapods are on pairwise distinct cells. *)
Lemma apart_pairwise (l : Lobby) :
  apart l <->
  forall k1 k2 o1 o2,
    Octapods l !! k1 = Some o1 -> Octapods l !! k2 = Some o2 ->
    pointOf o1 = pointOf o2 -> k1 = k2.
Proof.
  unfold apart. split.
  - intros Hnd k1 k2 o1 o2 H1 H2 Hp.
    apply elem_of_map_to_list, list_elem_of_lookup in H1 as [i Hi].
    apply elem_of_map_to_list, list_elem_of_lookup in H2 as [j Hj].
    assert (i = j) as ->.
    { apply (NoDup_lookup _ i j (pointOf o1) Hnd);
        rewrite !list_lookup_fmap; [rewrite Hi | rewrite Hj]; simpl;
        congruence. }
    congruence.
  - intros Ha. rewrite <- list_fmap_compose.
    apply NoDup_fmap_2_strong; [|apply NoDup_map_to_list].
    intros [k1 o1] [k2 o2] H1 H2 Hp. simpl in Hp.
    apply elem_of_map_to_list in H1, H2.
    assert (k1 = k2) as -> by (eapply Ha; eauto).
    congruence.
Qed.

(** The board does not depend on the order of the range when no two
    octapods are on the same cell. *)
Lemma octapodPositions_order (l : Lobby) (order1 order2 : list string)
  (id : string) :
  apart l -> ranges l order1 -> ranges l order2 ->
  octapodPositions (omap (fun k => Octapods l !! k) order1) id
  = octapodPositions (omap (fun k => Octapods l !! k) order2) id.
Proof.
  intros Ha H1 H2. rewrite !octapodPositions_list_to_map.
  pose proof (snapshot_values l order1 H1) as P1.
  pose proof (snapshot_values l order2 H2) as P2.
  apply list_to_map_proper.
  - rewrite reverse_Permutation, <- list_fmap_compose.
    change (NoDup (pointOf <$> filter (shown id)
                     (omap (fun k => Octapods l !! k) order1))).
    apply NoDup_fmap_filter. rewrite P1. exact Ha.
  - rewrite !reverse_Permutation, P1, P2. reflexivity.
Qed.

(** C10. For a maze and a registry in which no two octapods are on the same
    cell, [DisplayMaze] returns the same for a filter whatever the order in
    which the registry is ranged over. *)
Theorem DisplayMaze_deterministic (l : Lobby) (order1 order2 : list string)
  (id : string) :
  apart l -> ranges l order1 -> ranges l order2 ->
  DisplayMaze order1 id l = DisplayMaze order2 id l.
Proof.
  intros Ha H1 H2. unfold DisplayMaze.
  rewrite (octapodPositions_order l order1 order2 id Ha H1 H2). reflexivity.
Qed.

(** *** Panics of the rendering *)

(** An octapod on the board is an octapod of the range that is shown. *)
Lemma octapodPositions_lookup (pods : list Octapod) (id : string) (p : Point)
  (o : Octapod) :
  octapodPositions pods id !! p = Some o ->
  o ∈ pods /\ shown id o /\ pointOf o = p.
Proof.
  rewrite octapodPositions_list_to_map. intros H.
  apply elem_of_list_to_map_2, elem_of_reverse, list_elem_of_fmap in H
    as (o' & Heq & Hin).
  injection Heq as -> ->. apply list_elem_of_filter in Hin as [Hs Hin]. auto.
Qed.

(** A cell with an octapod of the range that is shown is on the board. *)
Lemma octapodPositions_occupied (pods : list Octapod) (id : string)
  (o : Octapod) :
  o ∈ pods -> shown id o ->
  is_Some (octapodPositions pods id !! pointOf o).
Proof.
  intros Hin Hs. rewrite octapodPositions_list_to_map.
  apply not_eq_None_Some. intros Hnone.
  apply not_elem_of_list_to_map_2 in Hnone. apply Hnone.
  apply list_elem_of_fmap. exists (pointOf o, o). split; [reflexivity|].
  apply elem_of_reverse, list_elem_of_fmap. exists o. split; [reflexivity|].
  apply list_elem_of_filter. auto.
Qed.

Lemma appendEach_panics (body : nat -> outcome string) (idx : list nat)
  (i : nat) (result : string) :
  i ∈ idx -> body i = Panics -> appendEach body idx result = Panics.
Proof.
  intros Hin Hp. revert result.
  induction idx as [|j idx IH]; intros result.
  - apply elem_of_nil in Hin. contradiction.
  - simpl. destruct (body j) as [s|] eqn:Ej; simpl; [|reflexivity].
    apply elem_of_cons in Hin as [->|Hin]; [congruence|]. apply IH, Hin.
Qed.

Lemma appendEach_returns (body : nat -> outcome string) (idx : list nat)
  (result : string) :
  (forall i, i ∈ idx -> exists s, body i = Returns s) ->
  exists s, appendEach body idx result = Returns s.
Proof.
  revert result. induction idx as [|j idx IH]; intros result H; simpl.
  - eauto.
  - destruct (H j) as (s & ->); [apply list_elem_of_here|]. simpl.
    apply IH. intros i Hi. apply H, list_elem_of_further, Hi.
Qed.

Lemma elem_of_upto (n : Z) (i : nat) : i ∈ upto n <-> (i < Z.to_nat n)%nat.
Proof. unfold upto. rewrite elem_of_seq. lia. Qed.

Lemma render_panics (mz : Maze) (positions : gmap Point Octapod)
  (x y : nat) :
  (x < Z.to_nat (Width mz))%nat -> (y < Z.to_nat (Height mz))%nat ->
  cell mz positions y x = Panics ->
  render mz positions = Panics.
Proof.
  intros Hx Hy Hc. unfold render.
  rewrite (appendEach_panics _ _ y); [reflexivity| |].
  - apply elem_of_upto, Hy.
  - unfold row. rewrite (appendEach_panics _ _ x); [reflexivity| |exact Hc].
    apply elem_of_upto, Hx.
Qed.

(** The slice [Id[0:1]] of an empty id: with the empty filter, an octapod
    with the empty id on an open cell of the maze, alone on it or with
    others of the same id, makes [DisplayMaze] panic. *)
Lemma DisplayMaze_empty_id_panics (l : Lobby) (order : list string)
  (k : string) (o : Octapod) (x y : nat) (column : list bool) :
  ranges l order ->
  Octapods l !! k = Some o ->
  Id o = EmptyString ->
  pointOf o = mkPoint (Z.of_nat x) (Z.of_nat y) ->
  (forall k' o', Octapods l !! k' = Some o' -> pointOf o' = pointOf o ->
                 Id o' = EmptyString) ->
  (x < Z.to_nat (Width (maze l)))%nat ->
  (y < Z.to_nat (Height (maze l)))%nat ->
  cells (maze l) !! x = Some column ->
  column !! y = Some false ->
  DisplayMaze order EmptyString l = Panics.
Proof.
  intros Hr Ho Hid Hp Hothers Hx Hy Hcol Hcell. unfold DisplayMaze.
  set (pods := omap (fun k => Octapods l !! k) order).
  assert (Hin : o ∈ pods).
  { apply list_elem_of_omap. exists k. split; [|exact Ho].
    apply (ranges_elem l order k Hr). eauto. }
  destruct (octapodPositions_occupied pods EmptyString o Hin) as [o' Ho'];
    [left; reflexivity|].
  rewrite decide_False.
  2:{ rewrite map_size_empty_iff. intros E. rewrite E, lookup_empty in Ho'.
      discriminate. }
  apply (render_panics _ _ x y Hx Hy). unfold cell.
  rewrite Hcol, Hcell, <- Hp, Ho'.
  apply octapodPositions_lookup in Ho' as (Hin' & _ & Hp').
  apply snapshot_elem in Hin' as (k' & Hk').
  rewrite (Hothers k' o' Hk' Hp'). reflexivity.
Qed.

(** When no registered id is empty and the cells cover the maze,
    [DisplayMaze] returns. *)
Lemma DisplayMaze_returns (l : Lobby) (order : list string) (id : string) :
  (forall k o, Octapods l !! k = Some o -> Id o <> EmptyString) ->
  covered (maze l) ->
  exists s, DisplayMaze order id l = Returns s.
Proof.
  intros Hids Hcov. unfold DisplayMaze.
  set (positions := octapodPositions _ id).
  case_decide; [case_decide; eauto|].
  assert (Hcell : forall x y, (x < Z.to_nat (Width (maze l)))%nat ->
            (y < Z.to_nat (Height (maze l)))%nat ->
            exists s, cell (maze l) positions y x = Returns s).
  { intros x y Hx Hy. unfold cell.
    destruct (Hcov x Hx) as (column & -> & Hcolumn).
    destruct (Hcolumn y Hy) as [[|] ->]; [eauto|].
    destruct (positions !! _) as [o|] eqn:Eo; [|eauto].
    apply octapodPositions_lookup in Eo as (Hin & _ & _).
    apply snapshot_elem in Hin as (k & Hk).
    destruct (Id o) eqn:Ei; [|eauto]. exfalso. exact (Hids k o Hk Ei). }
  unfold render.
  destruct (appendEach_returns (row (maze l) positions)
              (upto (Height (maze l))) EmptyString) as (r1 & ->).
  { intros y Hy. apply elem_of_upto in Hy. unfold row.
    destruct (appendEach_returns (cell (maze l) positions y)
                (upto (Width (maze l))) EmptyString) as (r & ->).
    - intros x Hx. apply elem_of_upto in Hx. apply Hcell; assumption.
    - simpl. eauto. }
  simpl.
  destruct (appendEach_returns (fun _ => Returns "# ")
              (upto (Width (maze l))) r1) as (r2 & ->); [eauto|].
  simpl. eauto.
Qed.

(** *** A handshake with the empty id *)

Lemma getAuthenticationMessage_ok (w : World) (conn : ConnPtr)
  (st : ConnState) (content : string) (auth : AuthMessage) :
  conns w !! conn = Some st ->
  closed st = false ->
  pending st = ReadGives TextMessage content ->
  Unmarshal content = inr auth ->
  getAuthenticationMessage conn w = (inr auth, w).
Proof.
  intros Hst Hcl Hp Hu. unfold getAuthenticationMessage, bind, ReadMessage.
  rewrite Hst, Hcl, Hp. simpl. rewrite Hu. reflexivity.
Qed.

(** The handshake registers an id that is not in the registry, the empty
    one as any other. *)
Lemma HandleJoin_registers (w : World) (conn : ConnPtr) (st : ConnState)
  (content : string) (auth : AuthMessage) :
  conns w !! conn = Some st ->
  closed st = false ->
  pending st = ReadGives TextMessage content ->
  Unmarshal content = inr auth ->
  Octapods (lobby w) !! ToLower (ID auth) = None ->
  let w' := exec (HandleJoin (Upgraded conn)) w in
  Octapods (lobby w')
  = <[ToLower (ID auth) :=
        NewOctapod (ToLower (ID auth)) (Password auth) conn (maze (lobby w))]>
      (Octapods (lobby w))
  /\ maze (lobby w') = maze (lobby w)
  /\ conns w' = conns w.
Proof.
  intros Hst Hcl Hp Hu Hnew w'. subst w'. unfold HandleJoin.
  rewrite !exec_bind.
  set (w0 := exec (logPrintln "New connection established") w).
  assert (Hst0 : conns w0 !! conn = Some st) by exact Hst.
  pose proof (getAuthenticationMessage_ok w0 conn st content auth
                Hst0 Hcl Hp Hu) as Hg.
  assert (Hg1 : eval (getAuthenticationMessage conn) w0 = inr auth)
    by (unfold eval; rewrite Hg; reflexivity).
  assert (Hg2 : exec (getAuthenticationMessage conn) w0 = w0)
    by (unfold exec; rewrite Hg; reflexivity).
  rewrite Hg1, Hg2, !exec_bind.
  set (w1 := exec (logPrintln "Received an octapod authentication message")
                  w0).
  assert (Hnew1 : Octapods (lobby w1) !! ToLower (ID auth) = None)
    by exact Hnew.
  destruct (identifyOctapod_new w1 _ (Password auth) conn Hnew1)
    as (He & Hreg & Hc & _).
  rewrite He. simpl. rewrite Hreg, Hc. repeat split.
  unfold identifyOctapod, exec, bind, getLobby. simpl. rewrite Hnew.
  reflexivity.
Qed.

(** C9. [DisplayMaze] slices the first byte of the id of an octapod, and
    the handshake registers the empty id: after a handshake whose
    authentication message has the empty id, with the new octapod put on an
    open cell of the maze where no other octapod is, the octapod with the
    empty id is in the registry and [DisplayMaze] with the empty filter
    panics. *)
Theorem empty_id_breaks_rendering
  (w : World) (conn : ConnPtr) (st : ConnState) (content password : string)
  (order : list string) (x y : nat) (column : list bool) :
  conns w !! conn = Some st ->
  closed st = false ->
  pending st = ReadGives TextMessage content ->
  Unmarshal content = inr (mkAuth EmptyString password) ->
  Octapods (lobby w) !! EmptyString = None ->
  spawn (maze (lobby w)) = mkPoint (Z.of_nat x) (Z.of_nat y) ->
  (x < Z.to_nat (Width (maze (lobby w))))%nat ->
  (y < Z.to_nat (Height (maze (lobby w))))%nat ->
  cells (maze (lobby w)) !! x = Some column ->
  column !! y = Some false ->
  (forall k o, Octapods (lobby w) !! k = Some o ->
               pointOf o <> spawn (maze (lobby w))) ->
  let w' := exec (HandleJoin (Upgraded conn)) w in
  ranges (lobby w') order ->
  (exists o, Octapods (lobby w') !! EmptyString = Some o
     /\ Id o = EmptyString /\ Conn o = Some conn)
  /\ DisplayMaze order EmptyString (lobby w') = Panics.
Proof.
  intros Hst Hcl Hp Hu Hnew Hsp Hx Hy Hcol Hcell Hfree w' Hr.
  destruct (HandleJoin_registers w conn st content _ Hst Hcl Hp Hu Hnew)
    as (Hreg & Hmz & _). fold w' in Hreg, Hmz. simpl in Hreg.
  set (o := NewOctapod EmptyString password conn (maze (lobby w)))
    in Hreg |- *.
  assert (Ho : Octapods (lobby w') !! EmptyString = Some o).
  { rewrite Hreg. apply lookup_insert_eq. }
  split; [exists o; repeat split; exact Ho|].
  apply (DisplayMaze_empty_id_panics (lobby w') order EmptyString o x y column
           Hr Ho); try (rewrite ?Hmz; assumption).
  - reflexivity.
  - unfold pointOf, o. simpl. rewrite Hsp. reflexivity.
  - intros k' o' Hk' Hpo. rewrite Hreg in Hk'.
    destruct (decide (k' = EmptyString)) as [->|Hne].
    + rewrite lookup_insert_eq in Hk'. injection Hk' as <-. reflexivity.
    + rewrite lookup_insert_ne in Hk' by congruence. exfalso.
      apply (Hfree k' o' Hk'). rewrite Hpo. unfold pointOf, o. simpl.
      destruct (spawn (maze (lobby w))); reflexivity.
Qed.

(** The turn of the cycle after a timeout phase renders the board: it
    panics when [DisplayMaze] does. *)
Lemma cycleTurn_panics (timeout : Z) (order orderD : list string) (w : World) :
  DisplayMaze orderD EmptyString
    (lobby (exec (run TimeoutUpdate order; logPrintln "Timeout update") w))
  = Panics ->
  cycleTurn timeout order orderD (mkCycle timeout true) w = Panics.
Proof. intros H. unfold cycleTurn. simpl. rewrite H. reflexivity. Qed.

(** ** The count of inactive cycles *)


(** * Further properties *)

(** ** What every call keeps *)

Lemma maintains_ret {A} (P : World -> Prop) (a : A) : maintains P (ret a : M A).
Proof. intros w H. exact H. Qed.

Lemma maintains_bind {A C} (P : World -> Prop) (m : M A) (k : A -> M C) :
  maintains P m -> (forall a, maintains P (k a)) -> maintains P (bind m k).
Proof. intros Hm Hk w H. rewrite exec_bind. apply Hk, Hm, H. Qed.

Lemma maintains_forM {A} (P : World -> Prop) (l : list A) (body : A -> M unit) :
  (forall a, maintains P (body a)) -> maintains P (forM_ l body).
Proof.
  intros Hb. induction l as [|a l IH]; simpl.
  - apply maintains_ret.
  - apply maintains_bind; auto.
Qed.

Lemma cycles_Close (c : ConnPtr) (w : World) :
  cycles (exec (Close c) w) = cycles w.
Proof.
  unfold Close, exec.
  destruct (conns w !! c) as [st|]; [destruct (closed st)|]; reflexivity.
Qed.

Lemma cycles_sendErrorAndClose (c : ConnPtr) (msg : string) (w : World) :
  cycles (exec (sendErrorAndClose c msg) w) = cycles w.
Proof.
  unfold sendErrorAndClose, WriteMessage. unfold exec, bind.
  destruct (conns w !! c) as [st|] eqn:E; simpl; [|reflexivity].
  destruct st as [p [e|] [|] ws]; simpl; try reflexivity.
  unfold Close. simpl. rewrite lookup_insert_eq. reflexivity.
Qed.

Section Steady.

Variable n : nat.
Variable mz : Maze.

Lemma steady_frame {A} (m : M A) :
  (forall w, lobby (exec m w) = lobby w /\ cycles (exec m w) = cycles w) ->
  maintains (steadyState n mz) m.
Proof.
  intros H w (Ht & Hc & Hm & Hi). destruct (H w) as (El & Ec).
  unfold steadyState, tidy. rewrite El, Ec. auto.
Qed.

Lemma steady_logPrintln line : maintains (steadyState n mz) (logPrintln line).
Proof. apply steady_frame. intros w. split; reflexivity. Qed.

Lemma steady_Run k : maintains (steadyState n mz) (Run k).
Proof. apply steady_frame. intros w. split; reflexivity. Qed.

Lemma steady_SendMessage text : maintains (steadyState n mz) (SendMessage text).
Proof. intros w H. exact H. Qed.

Lemma steady_Close c : maintains (steadyState n mz) (Close c).
Proof.
  apply steady_frame. intros w. split; [apply lobby_Close | apply cycles_Close].
Qed.

Lemma steady_sendErrorAndClose c msg :
  maintains (steadyState n mz) (sendErrorAndClose c msg).
Proof.
  apply steady_frame. intros w.
  split; [apply lobby_sendErrorAndClose | apply cycles_sendErrorAndClose].
Qed.

Lemma steady_getAuthenticationMessage c :
  maintains (steadyState n mz) (getAuthenticationMessage c).
Proof.
  unfold getAuthenticationMessage. apply maintains_bind.
  - apply steady_frame. intros w. unfold ReadMessage, exec.
    destruct (conns w !! c) as [st|]; [destruct (closed st)|];
      split; reflexivity.
  - intros [err|msgType content].
    + apply maintains_bind; [apply steady_sendErrorAndClose|].
      intros; apply maintains_ret.
    + destruct (negb (msgType =? TextMessage)%Z).
      * apply maintains_bind; [apply steady_sendErrorAndClose|].
        intros; apply maintains_ret.
      * destruct (Unmarshal content).
        -- apply maintains_bind; [apply steady_sendErrorAndClose|].
           intros; apply maintains_ret.
        -- apply maintains_ret.
Qed.

(** Storing under a key an octapod with that id, the key being lower-case. *)
Lemma steady_store (w : World) (k : string) (o : Octapod) :
  Id o = k -> ToLower k = k ->
  steadyState n mz w -> steadyState n mz (exec (store k o) w).
Proof.
  intros Hid Hlow (Ht & Hc & Hm & Hi).
  split; [exact Ht|]. split; [exact Hc|]. split; [exact Hm|].
  intros k0 o0 H. simpl in H. destruct (decide (k = k0)) as [<-|Hne].
  - rewrite lookup_insert_eq in H. injection H as <-. split; assumption.
  - rewrite lookup_insert_ne in H by assumption. apply (Hi k0 o0 H).
Qed.

Lemma steady_send k v : maintains (steadyState n mz) (send k v).
Proof.
  intros w H. unfold send. rewrite exec_bind. unfold deref at 2, eval. simpl.
  destruct (Octapods (lobby w) !! k) as [o|] eqn:E; [|exact H].
  pose proof H as (_ & _ & _ & Hi). destruct (Hi k o E) as (Hid & Hlow).
  apply steady_store; [exact Hid | exact Hlow | exact H].
Qed.

Lemma steady_Disconnect k : maintains (steadyState n mz) (Disconnect k).
Proof.
  intros w H. unfold Disconnect. rewrite exec_bind.
  unfold deref at 2, eval. simpl.
  destruct (Octapods (lobby w) !! k) as [o|] eqn:E; [|exact H].
  destruct (Conn o) as [c|]; [|exact H].
  rewrite exec_bind.
  pose proof H as (_ & _ & _ & Hi). destruct (Hi k o E) as (Hid & Hlow).
  apply steady_store; [exact Hid | exact Hlow |].
  apply steady_Close. exact H.
Qed.

Lemma steady_verifyAndReconnect id password conn :
  maintains (steadyState n mz) (verifyAndReconnect id password conn).
Proof.
  intros w H. unfold verifyAndReconnect. rewrite exec_bind.
  unfold deref at 2, eval. simpl.
  destruct (Octapods (lobby w) !! id) as [oct|] eqn:E; [|exact H].
  destruct (negb (VerifyPassword oct password)).
  { apply maintains_bind; [apply steady_sendErrorAndClose | | exact H].
    intros _. apply maintains_bind; [apply steady_Close|]. intros _.
    apply maintains_ret. }
  destruct (Conn oct) as [c|].
  { apply maintains_bind; [apply steady_sendErrorAndClose | | exact H].
    intros _. apply maintains_bind; [apply steady_Close|]. intros _.
    apply maintains_ret. }
  rewrite exec_bind.
  assert (H1 : steadyState n mz (exec (store id (set_Conn (Some conn) oct)) w)).
  { pose proof H as (_ & _ & _ & Hi). destruct (Hi id oct E) as (Hid & Hlow).
    apply steady_store; [exact Hid | exact Hlow | exact H]. }
  apply maintains_bind; [apply steady_logPrintln | | exact H1]. intros _.
  apply maintains_bind; [apply steady_SendMessage|]. intros _.
  apply maintains_ret.
Qed.

Lemma steady_identifyOctapod id password conn :
  ToLower id = id ->
  maintains (steadyState n mz) (identifyOctapod id password conn).
Proof.
  intros Hlow w H. unfold identifyOctapod. rewrite exec_bind.
  unfold getLobby at 2, eval. simpl. unfold getLobby, exec at 2. simpl.
  destruct (Octapods (lobby w) !! id) as [oct|] eqn:E.
  - apply steady_verifyAndReconnect, H.
  - rewrite exec_bind.
    assert (H1 : steadyState n mz
                   (exec (store id (NewOctapod id password conn (maze (lobby w))))
                         w))
      by (apply steady_store; [reflexivity | exact Hlow | exact H]).
    apply maintains_bind; [apply steady_logPrintln | | exact H1]. intros _.
    apply maintains_bind; [apply steady_SendMessage|]. intros _.
    apply maintains_bind; [apply steady_Run|]. intros _.
    apply maintains_ret.
Qed.

Lemma steady_HandleJoin up : maintains (steadyState n mz) (HandleJoin up).
Proof.
  destruct up as [err|conn]; simpl; [apply steady_logPrintln|].
  apply maintains_bind; [apply steady_logPrintln|]. intros _.
  apply maintains_bind; [apply steady_getAuthenticationMessage|].
  intros [err|auth]; [apply steady_logPrintln|].
  apply maintains_bind; [apply steady_logPrintln|]. intros _.
  apply maintains_bind; [apply steady_identifyOctapod, ToLower_idem|].
  intros [k|]; [apply steady_Run | apply maintains_ret].
Qed.

Lemma steady_Update order : maintains (steadyState n mz) (Update order).
Proof.
  unfold Update. apply maintains_bind; [intros w H; exact H|].
  intros l. apply maintains_forM. intros k w H. unfold updateOne.
  rewrite exec_bind. unfold deref at 2, eval. simpl.
  destruct (Octapods (lobby w) !! k) as [o|] eqn:E; [|exact H].
  destruct (Conn o) as [c|]; [|exact H].
  rewrite exec_bind.
  assert (H1 : steadyState n mz
                 (exec (store k (set_InactiveCount (wrap (InactiveCount o + 1)) o))
                       w)).
  { pose proof H as (_ & _ & _ & Hi). destruct (Hi k o E) as (Hid & Hlow).
    apply steady_store; [exact Hid | exact Hlow | exact H]. }
  apply maintains_bind; [apply steady_send | | exact H1]. intros _.
  apply steady_logPrintln.
Qed.

Lemma steady_TimeoutUpdate order :
  maintains (steadyState n mz) (TimeoutUpdate order).
Proof.
  unfold TimeoutUpdate. apply maintains_forM. intros k w H. unfold timeoutOne.
  rewrite exec_bind. unfold deref at 2, eval. simpl.
  destruct (Octapods (lobby w) !! k) as [o|] eqn:E; [|exact H].
  destruct (Conn o) as [c|]; [|exact H].
  apply maintains_bind; [apply steady_send | | exact H]. intros _.
  apply maintains_bind; [apply steady_logPrintln|]. intros _.
  apply maintains_bind; [intros w0 H0; exact H0|].
  intros [o'|]; [|apply maintains_ret].
  destruct (MaxInactive <=? InactiveCount o')%Z; [|apply maintains_ret].
  apply maintains_bind; [apply steady_Disconnect|]. intros _.
  apply steady_logPrintln.
Qed.

Lemma steady_StartTimer timeout :
  maintains (steadyState n mz) (StartTimer timeout).
Proof.
  intros w H. pose proof H as (Ht & Hc & Hm & Hi).
  rewrite (StartTimer_guard w timeout Ht). exact H.
Qed.

Lemma steady_calls cs : maintains (steadyState n mz) (calls cs).
Proof.
  unfold calls. apply maintains_forM. intros [up|order|order|timeout]; simpl.
  - apply steady_HandleJoin.
  - apply steady_Update.
  - apply steady_TimeoutUpdate.
  - apply steady_StartTimer.
Qed.

End Steady.

(** The timer runs once for the life of the lobby: after [NewLobby], no
    sequence of calls starts a second scheduler goroutine, stops the timer
    or replaces the maze. *)
Theorem one_scheduler_forever (width height : Z) (cs : list Call) :
  let w := exec (calls cs) (NewLobby width height) in
  cycles w = 1%nat /\ timerRunning (lobby w) = true
  /\ maze (lobby w) = NewMaze width height.
Proof.
  intros w.
  assert (H0 : steadyState 1 (NewMaze width height) (NewLobby width height)).
  { split; [reflexivity|]. split; [reflexivity|]. split; [reflexivity|].
    intros k o H. simpl in H. rewrite lookup_empty in H. discriminate H. }
  destruct (steady_calls 1 (NewMaze width height) cs _ H0) as (Ht & Hc & Hm & _).
  auto.
Qed.



(** However often [StartTimer] is called, one after the other, at most one
    scheduler goroutine is started: one when the timer was not running and
    there is at least one call, none otherwise. *)
Theorem StartTimer_many (ts : list Z) (w : World) :
  cycles (exec (forM_ ts StartTimer) w)
  = (cycles w
     + if timerRunning (lobby w) then 0
       else match ts with [] => 0 | _ :: _ => 1 end)%nat.
Proof.
  destruct ts as [|t ts].
  - change (exec (forM_ [] StartTimer) w) with w.
    destruct (timerRunning (lobby w)); lia.
  - rewrite exec_forM_cons.
    assert (Hrest : forall w1, timerRunning (lobby w1) = true ->
              cycles (exec (forM_ ts StartTimer) w1) = cycles w1).
    { induction ts as [|t' ts IH]; intros w1 H1; [reflexivity|].
      rewrite exec_forM_cons, IH.
      - rewrite (StartTimer_guard w1 t' H1). reflexivity.
      - apply StartTimer_running. }
    rewrite Hrest by apply StartTimer_running.
    unfold StartTimer, exec, bind, getLobby. simpl.
    destruct (timerRunning (lobby w)); simpl; lia.
Qed.

(** ** More on the handshake *)

(** The handshake past a good first message: [identifyOctapod] on the
    lower-cased id, and then [Run] on the octapod it returns. *)
Lemma HandleJoin_proceeds (w : World) (conn : ConnPtr) (st : ConnState)
  (content : string) (auth : AuthMessage) :
  conns w !! conn = Some st ->
  closed st = false ->
  pending st = ReadGives TextMessage content ->
  Unmarshal content = inr auth ->
  let w1 := exec (run logPrintln "New connection established";
                  logPrintln "Received an octapod authentication message") w in
  exec (HandleJoin (Upgraded conn)) w
  = exec (Run (ToLower (ID auth)))
         (exec (identifyOctapod (ToLower (ID auth)) (Password auth) conn) w1).
Proof.
  intros Hst Hcl Hp Hu w1. subst w1. unfold HandleJoin.
  rewrite !exec_bind.
  set (w0 := exec (logPrintln "New connection established") w).
  assert (Hst0 : conns w0 !! conn = Some st) by exact Hst.
  pose proof (getAuthenticationMessage_ok w0 conn st content auth
                Hst0 Hcl Hp Hu) as Hg.
  assert (Hg1 : eval (getAuthenticationMessage conn) w0 = inr auth)
    by (unfold eval; rewrite Hg; reflexivity).
  assert (Hg2 : exec (getAuthenticationMessage conn) w0 = w0)
    by (unfold exec; rewrite Hg; reflexivity).
  rewrite Hg1, Hg2, !exec_bind, identifyOctapod_returns. reflexivity.
Qed.

(** The handshake past a good first message, for an octapod that is
    registered, when the password is wrong or the octapod has a
    connection. *)
Lemma HandleJoin_rejects
  (w : World) (conn : ConnPtr) (st : ConnState) (content : string)
  (auth : AuthMessage) (oct : Octapod) :
  conns w !! conn = Some st ->
  closed st = false ->
  pending st = ReadGives TextMessage content ->
  Unmarshal content = inr auth ->
  Octapods (lobby w) !! ToLower (ID auth) = Some oct ->
  VerifyPassword oct (Password auth) = false \/ Conn oct <> None ->
  let msg := if VerifyPassword oct (Password auth)
             then "Octapod already connected"
             else "Invalid password for octapod" in
  let w' := exec (HandleJoin (Upgraded conn)) w in
  handoffs w' = (handoffs w ++ [ToLower (ID auth)])%list
  /\ lobby w' = lobby w
  /\ conns w' = <[conn := reject msg st]> (conns w).
Proof.
  intros Hst Hcl Hp Hu Ho Hcase msg w'. subst w' msg.
  rewrite (HandleJoin_proceeds w conn st content auth Hst Hcl Hp Hu).
  set (w1 := exec (run logPrintln "New connection established";
                   logPrintln "Received an octapod authentication message") w).
  assert (Ho1 : Octapods (lobby w1) !! ToLower (ID auth) = Some oct)
    by exact Ho.
  assert (Hst1 : conns w1 !! conn = Some st) by exact Hst.
  assert (E : exec (identifyOctapod (ToLower (ID auth)) (Password auth) conn) w1
              = exec (verifyAndReconnect (ToLower (ID auth)) (Password auth)
                        conn) w1).
  { unfold exec. rewrite (identifyOctapod_existing w1 _ _ _ oct Ho1).
    reflexivity. }
  rewrite E.
  destruct (verifyAndReconnect_rejects w1 _ (Password auth) conn oct st
              Ho1 Hst1 Hcase) as (Hl & Hc & _ & Hh).
  simpl. rewrite Hl, Hc, Hh. repeat split.
Qed.

(** A rejected handshake still hands the octapod to its processing loop:
    [identifyOctapod] returns the octapod it found, not nil, so [HandleJoin]
    calls [Run] on the registered octapod although the new connection was
    refused and closed.  The lobby itself is as before. *)
Theorem rejected_handshake_still_runs
  (w : World) (conn : ConnPtr) (st : ConnState) (content : string)
  (auth : AuthMessage) (oct : Octapod) :
  conns w !! conn = Some st ->
  closed st = false ->
  pending st = ReadGives TextMessage content ->
  Unmarshal content = inr auth ->
  Octapods (lobby w) !! ToLower (ID auth) = Some oct ->
  VerifyPassword oct (Password auth) = false \/ Conn oct <> None ->
  let w' := exec (HandleJoin (Upgraded conn)) w in
  handoffs w' = (handoffs w ++ [ToLower (ID auth)])%list
  /\ lobby w' = lobby w
  /\ closed <$> conns w' !! conn = Some true.
Proof.
  intros Hst Hcl Hp Hu Ho Hcase w'.
  destruct (HandleJoin_rejects w conn st content auth oct
              Hst Hcl Hp Hu Ho Hcase) as (Hh & Hl & Hc).
  fold w' in Hh, Hl, Hc. split; [exact Hh|]. split; [exact Hl|].
  rewrite Hc, lookup_insert_eq. reflexivity.
Qed.

(** A registration hands the new octapod to its processing loop twice:
    once in [identifyOctapod], once more in [HandleJoin]. *)
Theorem registration_runs_twice
  (w : World) (conn : ConnPtr) (st : ConnState) (content : string)
  (auth : AuthMessage) :
  conns w !! conn = Some st ->
  closed st = false ->
  pending st = ReadGives TextMessage content ->
  Unmarshal content = inr auth ->
  Octapods (lobby w) !! ToLower (ID auth) = None ->
  handoffs (exec (HandleJoin (Upgraded conn)) w)
  = (handoffs w ++ [ToLower (ID auth); ToLower (ID auth)])%list.
Proof.
  intros Hst Hcl Hp Hu Hnew.
  rewrite (HandleJoin_proceeds w conn st content auth Hst Hcl Hp Hu).
  set (w1 := exec (run logPrintln "New connection established";
                   logPrintln "Received an octapod authentication message") w).
  assert (Hnew1 : Octapods (lobby w1) !! ToLower (ID auth) = None)
    by exact Hnew.
  destruct (identifyOctapod_new w1 _ (Password auth) conn Hnew1)
    as (_ & _ & _ & Hh & _).
  simpl. rewrite Hh. simpl. rewrite <- app_assoc. reflexivity.
Qed.

(** A reconnection: a handshake with the password of a registered octapod
    that has no connection attaches the new connection and tells the bot;
    nothing is written to the connection, it stays open, and everything
    else of the octapod and all other octapods are as before. *)
Theorem reconnection_attaches
  (w : World) (conn : ConnPtr) (st : ConnState) (content : string)
  (auth : AuthMessage) (oct : Octapod) :
  conns w !! conn = Some st ->
  closed st = false ->
  pending st = ReadGives TextMessage content ->
  Unmarshal content = inr auth ->
  Octapods (lobby w) !! ToLower (ID auth) = Some oct ->
  VerifyPassword oct (Password auth) = true ->
  Conn oct = None ->
  let id := ToLower (ID auth) in
  let w' := exec (HandleJoin (Upgraded conn)) w in
  Octapods (lobby w') = <[id := set_Conn (Some conn) oct]> (Octapods (lobby w))
  /\ conns w' = conns w
  /\ DiscordBot (lobby w')
     = (DiscordBot (lobby w)
        ++ [("Octapod [" ++ id ++ "] reconnected")%string])%list.
Proof.
  intros Hst Hcl Hp Hu Ho Hv Hc id w'. subst w' id.
  rewrite (HandleJoin_proceeds w conn st content auth Hst Hcl Hp Hu).
  set (w1 := exec (run logPrintln "New connection established";
                   logPrintln "Received an octapod authentication message") w).
  assert (Ho1 : Octapods (lobby w1) !! ToLower (ID auth) = Some oct)
    by exact Ho.
  assert (E : exec (identifyOctapod (ToLower (ID auth)) (Password auth) conn) w1
              = exec (verifyAndReconnect (ToLower (ID auth)) (Password auth)
                        conn) w1).
  { unfold exec. rewrite (identifyOctapod_existing w1 _ _ _ oct Ho1).
    reflexivity. }
  rewrite E.
  destruct (verifyAndReconnect_attaches w1 _ (Password auth) conn oct
              Ho1 Hv Hc) as (Hreg & Hcs & _ & Hd).
  simpl. rewrite Hreg, Hcs, Hd. repeat split.
Qed.


(** ** A full cycle *)

(** An update phase and the timeout phase after it, for one octapod. *)
Lemma cycle_lookup (w : World) (order1 order2 : list string) (k : string)
  (o : Octapod) :
  ranges (lobby w) order1 ->
  let w1 := exec (Update order1) w in
  ranges (lobby w1) order2 ->
  Octapods (lobby w) !! k = Some o ->
  let w2 := exec (TimeoutUpdate order2) w1 in
  Octapods (lobby w2) !! k = Some (expire (bump (maze (lobby w)) o))
  /\ forall c st, overdue (bump (maze (lobby w)) o) = Some c ->
       conns w !! c = Some st -> conns w2 !! c = Some (shut st).
Proof.
  intros Hr1 w1 Hr2 Ho w2.
  destruct (Update_registry order1 w Hr1) as (Hreg & Hcs).
  fold w1 in Hreg, Hcs.
  assert (Ho1 : Octapods (lobby w1) !! k = Some (bump (maze (lobby w)) o))
    by (rewrite Hreg, lookup_fmap, Ho; reflexivity).
  assert (Hin : k ∈ order2) by (apply (ranges_elem _ _ k Hr2); eauto).
  destruct (TimeoutUpdate_lookup order2 w1 (ranges_NoDup _ _ Hr2))
    as (Hl & Hc). fold w2 in Hl, Hc. split.
  - rewrite Hl, (decide_True (P := k ∈ order2)) by exact Hin.
    rewrite Ho1. reflexivity.
  - intros c st Hov Hst. rewrite Hc, Hcs, Hst.
    rewrite (decide_True (P := c ∈ _)); [reflexivity|].
    apply elem_of_evicted. exists k, (bump (maze (lobby w)) o). auto.
Qed.

(** One full cycle, an update phase and then a timeout phase, on an
    octapod with a connection (the processing loop of the octapod not
    touching the count in between): its count is one more, it has been sent
    the reading and then the nil marker, and it keeps its connection exactly
    when the new count is below [MaxInactive]. *)
Theorem full_cycle_evicts
  (w : World) (order1 order2 : list string) (k : string) (o : Octapod)
  (c : ConnPtr) :
  ranges (lobby w) order1 ->
  let w1 := exec (Update order1) w in
  ranges (lobby w1) order2 ->
  Octapods (lobby w) !! k = Some o ->
  Conn o = Some c ->
  (int_min <= InactiveCount o < int_max)%Z ->
  let w2 := exec (TimeoutUpdate order2) w1 in
  exists o', Octapods (lobby w2) !! k = Some o'
    /\ InactiveCount o' = (InactiveCount o + 1)%Z
    /\ Sensor o'
       = (Sensor o ++ [Some (GetSensor (maze (lobby w)) (Position o)); None])%list
    /\ Conn o' = if (MaxInactive <=? InactiveCount o + 1)%Z then None
                 else Some c.
Proof.
  intros Hr1 w1 Hr2 Ho Hc Hrange w2.
  destruct (cycle_lookup w order1 order2 k o Hr1 Hr2 Ho) as (Hl & _).
  fold w2 in Hl. eexists. split; [exact Hl|].
  unfold expire, bump. rewrite Hc. simpl.
  rewrite wrap_small by (unfold int_min, int_max in Hrange |- *; lia).
  rewrite <- app_assoc. repeat split.
Qed.

(** An octapod that lost its connection for inactivity and reconnects is
    taken its new connection by the very next cycle: the handshake leaves
    the count where it was, the update phase adds one, and the timeout
    phase finds it at [MaxInactive] or above (the processing loop of the
    octapod not touching the count in between). *)
Theorem reconnected_is_evicted_again
  (w : World) (k password : string) (conn : ConnPtr) (o : Octapod)
  (st : ConnState) (order1 order2 : list string) :
  Octapods (lobby w) !! k = Some o ->
  Conn o = None ->
  VerifyPassword o password = true ->
  conns w !! conn = Some st ->
  (MaxInactive - 1 <= InactiveCount o < int_max)%Z ->
  let w1 := exec (identifyOctapod k password conn) w in
  ranges (lobby w1) order1 ->
  let w2 := exec (Update order1) w1 in
  ranges (lobby w2) order2 ->
  let w3 := exec (TimeoutUpdate order2) w2 in
  Conn <$> Octapods (lobby w1) !! k = Some (Some conn)
  /\ Conn <$> Octapods (lobby w3) !! k = Some None
  /\ conns w3 !! conn = Some (shut st).
Proof.
  intros Ho Hc Hv Hst Hrange w1 Hr1 w2 Hr2 w3.
  assert (E : w1 = exec (verifyAndReconnect k password conn) w).
  { subst w1. unfold exec. rewrite (identifyOctapod_existing w _ _ _ o Ho).
    reflexivity. }
  destruct (verifyAndReconnect_attaches w k password conn o Ho Hv Hc)
    as (Hreg & Hcs & _). rewrite <- E in Hreg, Hcs.
  assert (Ho1 : Octapods (lobby w1) !! k = Some (set_Conn (Some conn) o))
    by (rewrite Hreg; apply lookup_insert_eq).
  destruct (cycle_lookup w1 order1 order2 k _ Hr1 Hr2 Ho1) as (Hl & Hcl).
  fold w2 w3 in Hl, Hcl.
  assert (Hle : (MaxInactive <=? wrap (InactiveCount o + 1))%Z = true).
  { rewrite wrap_small by (unfold int_min, int_max, MaxInactive in Hrange |- *;
                           lia).
    apply Z.leb_le. lia. }
  split; [rewrite Ho1; reflexivity|]. split.
  - rewrite Hl. unfold expire, bump. simpl. rewrite Hle. reflexivity.
  - apply Hcl; [|rewrite Hcs; exact Hst].
    unfold overdue, bump. simpl. rewrite Hle. reflexivity.
Qed.

(** ** More on the rendering *)

Lemma string_length_app (a b : string) :
  String.length (a ++ b) = (String.length a + String.length b)%nat.
Proof. induction a as [|c a IH]; simpl; [reflexivity|]. rewrite IH. reflexivity. Qed.

Lemma appendEach_length (body : nat -> outcome string) (idx : list nat)
  (c : nat) (result s : string) :
  (forall i t, body i = Returns t -> String.length t = c) ->
  appendEach body idx result = Returns s ->
  String.length s = (String.length result + c * length idx)%nat.
Proof.
  intros Hb. revert result. induction idx as [|i idx IH]; intros result H.
  - simpl in H. injection H as <-. simpl. lia.
  - simpl in H. destruct (body i) as [t|] eqn:Ei; [|discriminate H].
    simpl in H. apply IH in H. rewrite H, string_length_app, (Hb i t Ei).
    simpl. lia.
Qed.

Lemma appendEach_ext (body1 body2 : nat -> outcome string) (idx : list nat)
  (result : string) :
  (forall i, i ∈ idx -> body1 i = body2 i) ->
  appendEach body1 idx result = appendEach body2 idx result.
Proof.
  revert result. induction idx as [|i idx IH]; intros result H; [reflexivity|].
  simpl. rewrite (H i) by apply list_elem_of_here.
  destruct (body2 i) as [t|]; [|reflexivity]. simpl.
  apply IH. intros j Hj. apply H, list_elem_of_further, Hj.
Qed.

Lemma cell_length (mz : Maze) (positions : gmap Point Octapod) (y x : nat)
  (t : string) :
  cell mz positions y x = Returns t -> String.length t = 2%nat.
Proof.
  unfold cell. intros H.
  destruct (cells mz !! x) as [column|]; [|discriminate H].
  destruct (column !! y) as [[|]|]; [| |discriminate H].
  - injection H as <-. reflexivity.
  - destruct (positions !! _) as [o|].
    + destruct (Id o); [discriminate H|]. injection H as <-. reflexivity.
    + injection H as <-. reflexivity.
Qed.

Lemma length_upto (n : Z) : length (upto n) = Z.to_nat n.
Proof. unfold upto. apply length_seq. Qed.

Lemma row_length (mz : Maze) (positions : gmap Point Octapod) (y : nat)
  (t : string) :
  row mz positions y = Returns t ->
  String.length t = (2 * Z.to_nat (Width mz) + 3)%nat.
Proof.
  unfold row. intros H.
  destruct (appendEach _ _ _) as [r|] eqn:E; [|discriminate H].
  simpl in H. injection H as <-.
  apply (appendEach_length _ _ 2) in E; [|apply cell_length].
  rewrite string_length_app, E, length_upto. simpl. lia.
Qed.

(** The board is a rectangle: when [render] returns, its result has one
    line per row of the maze and one more for the lower border, each of two
    bytes per column and three for the right border, between the two
    fences. *)
Lemma render_length (mz : Maze) (positions : gmap Point Octapod) (s : string) :
  render mz positions = Returns s ->
  String.length s
  = (7 + (Z.to_nat (Height mz) + 1) * (2 * Z.to_nat (Width mz) + 3))%nat.
Proof.
  unfold render. intros H.
  destruct (appendEach (row mz positions) _ _) as [r1|] eqn:E1;
    [|discriminate H].
  simpl in H.
  destruct (appendEach (fun _ => Returns "# ") _ r1) as [r2|] eqn:E2;
    [|discriminate H].
  simpl in H. injection H as <-.
  apply (appendEach_length _ _ (2 * Z.to_nat (Width mz) + 3)) in E1;
    [|apply row_length].
  apply (appendEach_length _ _ 2) in E2;
    [|intros i t Ht; injection Ht as <-; reflexivity].
  rewrite !string_length_app, E2, E1, !length_upto. simpl. lia.
Qed.

(** What [DisplayMaze] returns is one of the two messages or a board of
    the size of the maze. *)
Theorem DisplayMaze_board_size (l : Lobby) (order : list string)
  (id s : string) :
  DisplayMaze order id l = Returns s ->
  s = "No octapods in the lobby."
  \/ s = "No octapods [" ++ id ++ "] in the lobby."
  \/ String.length s
     = (7 + (Z.to_nat (Height (maze l)) + 1)
            * (2 * Z.to_nat (Width (maze l)) + 3))%nat.
Proof.
  unfold DisplayMaze. intros H.
  destruct (decide (size _ = 0%nat)).
  - destruct (decide (id = EmptyString)); injection H as <-; auto.
  - right. right. apply (render_length _ _ _ H).
Qed.


(** The board shows the octapods on its open cells only. *)
Lemma render_ext (mz : Maze) (positions1 positions2 : gmap Point Octapod) :
  (forall x y column,
     (x < Z.to_nat (Width mz))%nat -> (y < Z.to_nat (Height mz))%nat ->
     cells mz !! x = Some column -> column !! y = Some false ->
     positions1 !! mkPoint (Z.of_nat x) (Z.of_nat y)
     = positions2 !! mkPoint (Z.of_nat x) (Z.of_nat y)) ->
  render mz positions1 = render mz positions2.
Proof.
  intros H. unfold render.
  rewrite (appendEach_ext (row mz positions1) (row mz positions2));
    [reflexivity|].
  intros y Hy. apply elem_of_upto in Hy. unfold row.
  rewrite (appendEach_ext (cell mz positions1 y) (cell mz positions2 y));
    [reflexivity|].
  intros x Hx. apply elem_of_upto in Hx. unfold cell.
  destruct (cells mz !! x) as [column|] eqn:Ec; [|reflexivity].
  destruct (column !! y) as [[|]|] eqn:Ey; try reflexivity.
  rewrite (H x y column Hx Hy Ec Ey). reflexivity.
Qed.

(** Octapods on a wall or outside the maze are not drawn, and still count
    as octapods of the lobby: when all registered octapods are hidden and
    there is one at least, [DisplayMaze] with the empty filter returns the
    board without any octapod, not the message. *)
Theorem DisplayMaze_hides (l : Lobby) (order : list string) (k : string)
  (o : Octapod) :
  ranges l order ->
  Octapods l !! k = Some o ->
  (forall k' o', Octapods l !! k' = Some o' -> hidden (maze l) o') ->
  DisplayMaze order EmptyString l = render (maze l) ∅.
Proof.
  intros Hr Ho Hh. unfold DisplayMaze.
  set (pods := omap (fun k => Octapods l !! k) order).
  assert (Hin : o ∈ pods).
  { apply list_elem_of_omap. exists k. split; [|exact Ho].
    apply (ranges_elem l order _ Hr). eauto. }
  destruct (octapodPositions_occupied pods EmptyString o Hin) as [o1 Ho1];
    [left; reflexivity|].
  rewrite decide_False.
  2:{ rewrite map_size_empty_iff. intros E. rewrite E, lookup_empty in Ho1.
      discriminate. }
  apply render_ext. intros x y column Hx Hy Hc Hcell. rewrite lookup_empty.
  destruct (octapodPositions pods EmptyString
              !! mkPoint (Z.of_nat x) (Z.of_nat y)) as [o'|] eqn:Ep;
    [|reflexivity].
  apply octapodPositions_lookup in Ep as (Hin' & _ & Hp').
  apply snapshot_elem in Hin' as (k' & Hk').
  exfalso. exact (Hh k' o' Hk' x y column Hp' Hx Hy Hc Hcell).
Qed.

(** When the cells of the maze do not cover its width and height, the
    rendering of a lobby with an octapod indexes the cells out of range. *)
Theorem DisplayMaze_uncovered_panics (l : Lobby) (order : list string)
  (k : string) (o : Octapod) (x y : nat) :
  ranges l order ->
  Octapods l !! k = Some o ->
  (x < Z.to_nat (Width (maze l)))%nat ->
  (y < Z.to_nat (Height (maze l)))%nat ->
  cells (maze l) !! x ≫= (fun column => column !! y) = None ->
  DisplayMaze order EmptyString l = Panics.
Proof.
  intros Hr Ho Hx Hy Hnone. unfold DisplayMaze.
  set (pods := omap (fun k => Octapods l !! k) order).
  assert (Hin : o ∈ pods).
  { apply list_elem_of_omap. exists k. split; [|exact Ho].
    apply (ranges_elem l order _ Hr). eauto. }
  destruct (octapodPositions_occupied pods EmptyString o Hin) as [o1 Ho1];
    [left; reflexivity|].
  rewrite decide_False.
  2:{ rewrite map_size_empty_iff. intros E. rewrite E, lookup_empty in Ho1.
      discriminate. }
  apply (render_panics _ _ x y Hx Hy). unfold cell.
  destruct (cells (maze l) !! x) as [column|]; [|reflexivity].
  simpl in Hnone. rewrite Hnone. reflexivity.
Qed.

(** ** The turns of the cycle *)

Lemma maze_timeoutOne (k : string) (w : World) :
  maze (lobby (exec (timeoutOne k) w)) = maze (lobby w).
Proof.
  unfold timeoutOne, exec, bind, deref. simpl.
  destruct (Octapods (lobby w) !! k) as [o|] eqn:E; simpl; [|reflexivity].
  destruct (Conn o) as [c|] eqn:Ec; simpl; [|reflexivity].
  unfold send, bind, deref. simpl. rewrite E. simpl.
  rewrite lookup_insert_eq. simpl.
  destruct (MaxInactive <=? InactiveCount o)%Z; simpl; [|reflexivity].
  unfold Disconnect, bind, deref. simpl. rewrite lookup_insert_eq. simpl.
  rewrite Ec. simpl.
  match goal with |- context [Close c ?w0] =>
    pose proof (lobby_Close c w0) as HL;
    unfold exec in HL; destruct (Close c w0) as [r w1] end.
  simpl in HL |- *. rewrite HL. reflexivity.
Qed.

Lemma maze_TimeoutUpdate (order : list string) (w : World) :
  maze (lobby (exec (TimeoutUpdate order) w)) = maze (lobby w).
Proof.
  unfold TimeoutUpdate. revert w.
  induction order as [|k order IH]; intros w; [reflexivity|].
  rewrite exec_forM_cons, IH. apply maze_timeoutOne.
Qed.


(** ** More on [sendErrorAndClose] *)

(** [sendErrorAndClose] on an open connection: it hands the error response
    to the connection once; when the write fails it logs the failure and
    leaves the connection open, otherwise it closes the connection and logs
    nothing.  The lobby and every other connection are as before. *)
Theorem sendErrorAndClose_open (w : World) (conn : ConnPtr) (msg : string)
  (st : ConnState) :
  conns w !! conn = Some st ->
  closed st = false ->
  let w' := exec (sendErrorAndClose conn msg) w in
  lobby w' = lobby w
  /\ (forall c, c <> conn -> conns w' !! c = conns w !! c)
  /\ match writeErr st with
     | Some e =>
         conns w' !! conn
         = Some (mkConn (pending st) (Some e) false
                        (writes st ++ [(mkError msg, false)]))
         /\ logs w' = (logs w ++ [("Error sending error message: " ++ e)%string])%list
     | None =>
         conns w' !! conn
         = Some (mkConn (pending st) None true
                        (writes st ++ [(mkError msg, true)]))
         /\ logs w' = logs w
     end.
Proof.
  intros Hst Hcl w'. subst w'.
  destruct (sendErrorAndClose_exec w conn msg st Hst) as (Hl & Hc & _).
  split; [exact Hl|]. split.
  - intros c Hne. rewrite Hc. apply lookup_insert_ne. congruence.
  - rewrite Hc, lookup_insert_eq.
    unfold sendErrorAndClose, WriteMessage, Close, exec, bind. simpl.
    rewrite Hst. unfold errorSent, writable.
    destruct st as [p [e|] cl ws]; simpl in Hcl |- *; subst cl; simpl.
    + split; reflexivity.
    + rewrite lookup_insert_eq. simpl. split; reflexivity.
Qed.

End Lobby.

(** * Examples on the small instance *)

Arguments lobby {Reading}.
Arguments conns {Reading}.
Arguments logs {Reading}.
Arguments cycles {Reading}.
Arguments handoffs {Reading}.
Arguments Octapods {Reading}.
Arguments timerRunning {Reading}.
Arguments maze {Reading}.
Arguments Id {Reading}.
Arguments Secret {Reading}.
Arguments Conn {Reading}.
Arguments InactiveCount {Reading}.
Arguments Sensor {Reading}.
Arguments mkOctapod {Reading}.
Arguments mkLobby {Reading}.
Arguments started {Reading}.
Arguments identifyOctapod {Reading}.
Arguments HandleJoin {Reading}.
Arguments Update {Reading}.
Arguments TimeoutUpdate {Reading}.
Arguments StartTimer {Reading}.
Arguments DisplayMaze {Reading}.
Arguments ranges {Reading}.
Arguments apart {Reading}.
Arguments matches {Reading}.
Arguments calls {Reading}.

(** The reading of the small instance is the position itself. *)
Abbreviation sense := (fun (_ : Maze) (p : Point) => p).

(** Two connections accepted, none read yet. *)
Abbreviation twoConns :=
  ({[ 0%nat := accepted (ReadGives TextMessage "A1:x");
      1%nat := accepted (ReadGives TextMessage "A1:y") ]}
   : gmap ConnPtr ConnState).

(** The octapod a1 registered with password x on connection 0. *)
Abbreviation registered :=
  (exec (identifyOctapod origin "a1" "x" 0%nat) (started smallMaze twoConns)
   : World Point).

Lemma first_handshake_fixes_credential_example :
  let w : World Point := started smallMaze twoConns in
  let cs := [UpdateCall ["a1"]; TimeoutCall ["a1"]] in
  let w1 := exec (identifyOctapod origin "a1" "x" 0%nat) w in
  let w2 := exec (calls sense origin colonUnmarshal cs) w1 in
  let w3 := exec (identifyOctapod origin "a1" "y" 1%nat) w2 in
  Octapods (lobby w) !! "a1" = None
  /\ "y" <> "x"
  /\ conns w2 !! 1%nat = Some (accepted (ReadGives TextMessage "A1:y"))
  /\ Secret <$> Octapods (lobby w3) !! "a1" = Some "x"
  /\ lobby w3 = lobby w2.
Proof.
  intros w cs w1 w2 w3.
  assert (H1 : Octapods (lobby w) !! "a1" = None) by reflexivity.
  assert (H2 : "y" <> "x") by discriminate.
  assert (H3 : conns w2 !! 1%nat
               = Some (accepted (ReadGives TextMessage "A1:y")))
    by (vm_compute; reflexivity).
  destruct (first_handshake_fixes_credential Point sense origin colonUnmarshal
              w "a1" "x" 0%nat cs "y" 1%nat _ H1 H2 H3)
    as (_ & (Hl & _) & Hs).
  repeat split; assumption.
Defined.

(** A handshake with a wrong password for an octapod that has a connection
    gets the error response "Invalid password for octapod", and not
    "Octapod already connected". *)
Lemma wrong_password_is_not_already_connected :
  let w := registered in
  let w' := exec (identifyOctapod origin "a1" "y" 1%nat) w in
  Conn <$> Octapods (lobby w) !! "a1" = Some (Some 0%nat)
  /\ conns w !! 1%nat = Some (accepted (ReadGives TextMessage "A1:y"))
  /\ writes <$> conns w' !! 1%nat
     = Some [(mkError "Invalid password for octapod", true)]
  /\ conns w'
     <> <[1%nat := reject "Octapod already connected"
                     (accepted (ReadGives TextMessage "A1:y"))]> (conns w).
Proof.
  intros w w'. split; [reflexivity|]. split; [reflexivity|].
  split; [vm_compute; reflexivity|].
  intros E. apply (f_equal (fun m => writes <$> m !! 1%nat)) in E.
  vm_compute in E. discriminate E.
Qed.

Lemma connected_octapod_rejects_handshake_example :
  let w := registered in
  let oct := mkOctapod "a1" "x" (Some 0%nat) (mkPoint 0 0) 0 [] in
  let st := accepted (ReadGives TextMessage "A1:y") in
  let w' := exec (identifyOctapod origin "a1" "x" 1%nat) w in
  Octapods (lobby w) !! "a1" = Some oct
  /\ Conn oct = Some 0%nat
  /\ conns w !! 1%nat = Some st
  /\ lobby w' = lobby w
  /\ conns w' = <[1%nat := reject "Octapod already connected" st]> (conns w).
Proof.
  intros w oct st w'.
  assert (H1 : Octapods (lobby w) !! "a1" = Some oct) by reflexivity.
  assert (H2 : Conn oct = Some 0%nat) by reflexivity.
  assert (H3 : conns w !! 1%nat = Some st) by reflexivity.
  destruct (connected_octapod_rejects_handshake Point origin w "a1" "x" 1%nat
              oct 0%nat st H1 H2 H3) as (_ & Hl & _ & Hc & _).
  repeat split; assumption.
Defined.

(** The octapod a1 after two cycles without a sign of life: the second
    timeout phase has taken its connection. *)
Abbreviation lapsed :=
  (exec (calls sense origin colonUnmarshal
           [UpdateCall ["a1"]; TimeoutCall ["a1"];
            UpdateCall ["a1"]; TimeoutCall ["a1"]]) registered).



Lemma handshake_abort_leaves_connection_open_example :
  let st := dropped (ReadFails "unexpected EOF") "broken pipe" in
  let w : World Point := started smallMaze {[ 0%nat := st ]} in
  let w' := exec (HandleJoin origin colonUnmarshal (Upgraded 0%nat)) w in
  conns w !! 0%nat = Some st
  /\ closed st = false
  /\ writeErr st = Some "broken pipe"
  /\ badFirstMessage colonUnmarshal st
     = Some "Error reading authentication message: unexpected EOF"
  /\ closed <$> conns w' !! 0%nat = Some false
  /\ lobby w' = lobby w.
Proof.
  intros st w w'.
  assert (H1 : conns w !! 0%nat = Some st) by reflexivity.
  assert (H2 : closed st = false) by reflexivity.
  assert (H3 : writeErr st = Some "broken pipe") by reflexivity.
  assert (H4 : badFirstMessage colonUnmarshal st
               = Some "Error reading authentication message: unexpected EOF")
    by reflexivity.
  destruct (handshake_abort_leaves_connection_open Point origin colonUnmarshal
              w 0%nat st _ _ H1 H2 H3 H4) as (Hl & Hc).
  split; [exact H1|]. split; [exact H2|]. split; [exact H3|].
  split; [exact H4|]. split; [|exact Hl].
  exact (f_equal (fmap closed) Hc).
Defined.

Lemma Update_increments_and_delivers_example :
  let w := registered in
  let o := mkOctapod "a1" "x" (Some 0%nat) (mkPoint 0 0) 0 [] in
  ranges (lobby w) ["a1"]
  /\ Octapods (lobby w) !! "a1" = Some o
  /\ exists o', Octapods (lobby (exec (Update sense ["a1"]) w)) !! "a1" = Some o'
       /\ InactiveCount o' = 1%Z
       /\ Sensor o' = [Some (mkPoint 0 0)].
Proof.
  intros w o.
  assert (H1 : ranges (lobby w) ["a1"]) by (vm_compute; reflexivity).
  assert (H2 : Octapods (lobby w) !! "a1" = Some o) by reflexivity.
  split; [exact H1|]. split; [exact H2|].
  destruct (Update_increments_and_delivers Point sense w ["a1"] "a1" o H1 H2)
    as (_ & Hc).
  destruct Hc as (o' & Ho' & _ & Hn & Hs & _); [discriminate|].
  exists o'. split; [exact Ho'|]. split; [|exact Hs].
  apply Hn. vm_compute. split; [discriminate | reflexivity].
Defined.

(** The octapod a1 after two update phases and one timeout phase. *)
Abbreviation overdueWorld :=
  (exec (calls sense origin colonUnmarshal
           [UpdateCall ["a1"]; TimeoutCall ["a1"]; UpdateCall ["a1"]])
        registered).

Lemma TimeoutUpdate_evicts_overdue_example :
  let w := overdueWorld in
  let o := mkOctapod "a1" "x" (Some 0%nat) (mkPoint 0 0) 2
             [Some (mkPoint 0 0); None; Some (mkPoint 0 0)] in
  let w' := exec (TimeoutUpdate ["a1"]) w in
  ranges (lobby w) ["a1"]
  /\ Octapods (lobby w) !! "a1" = Some o
  /\ (exists o', Octapods (lobby w') !! "a1" = Some o'
        /\ Conn o' = None
        /\ Sensor o' = [Some (mkPoint 0 0); None; Some (mkPoint 0 0); None])
  /\ closed <$> conns w' !! 0%nat = Some true.
Proof.
  intros w o w'.
  assert (H1 : ranges (lobby w) ["a1"]) by (vm_compute; reflexivity).
  assert (H2 : Octapods (lobby w) !! "a1" = Some o) by (vm_compute; reflexivity).
  split; [exact H1|]. split; [exact H2|].
  destruct (TimeoutUpdate_evicts_overdue Point w ["a1"] "a1" o H1 H2)
    as (_ & Hc & _).
  destruct (Hc 0%nat) as (o' & Ho' & Hs & _ & _ & _ & _ & Hev & _);
    [reflexivity|].
  destruct Hev as (Hn & Hcl); [vm_compute; discriminate|].
  split.
  - exists o'. repeat split; assumption.
  - assert (Hst : conns w !! 0%nat
                  = Some (accepted (ReadGives TextMessage "A1:x")))
      by (vm_compute; reflexivity).
    exact (f_equal (fmap closed) (Hcl _ Hst)).
Defined.

Lemma StartTimer_idempotent_example :
  let w : World Point := started smallMaze ∅ in
  let w' := exec (StartTimer 1000000000) w in
  timerRunning (lobby w) = true
  /\ cycles w' = 1%nat
  /\ logs w' = ["Timer already running."].
Proof.
  intros w w'.
  assert (H : timerRunning (lobby w) = true) by reflexivity.
  destruct (StartTimer_idempotent Point w 1000000000 H)
    as (_ & _ & _ & _ & Hc & Hl).
  repeat split; assumption.
Defined.


Lemma empty_id_breaks_rendering_example :
  let st := accepted (ReadGives TextMessage ":x") in
  let w : World Point := started smallMaze {[ 0%nat := st ]} in
  let w' := exec (HandleJoin origin colonUnmarshal (Upgraded 0%nat)) w in
  conns w !! 0%nat = Some st
  /\ colonUnmarshal ":x" = inr (mkAuth EmptyString "x")
  /\ Octapods (lobby w) !! EmptyString = None
  /\ cells smallMaze !! 0%nat = Some [false; true]
  /\ ranges (lobby w') [EmptyString]
  /\ Id <$> Octapods (lobby w') !! EmptyString = Some EmptyString
  /\ DisplayMaze [EmptyString] EmptyString (lobby w') = Panics.
Proof.
  intros st w w'.
  assert (Hst : conns w !! 0%nat = Some st) by reflexivity.
  assert (Hu : colonUnmarshal ":x" = inr (mkAuth EmptyString "x"))
    by reflexivity.
  assert (Hnew : Octapods (lobby w) !! EmptyString = None) by reflexivity.
  assert (Hcol : cells smallMaze !! 0%nat = Some [false; true]) by reflexivity.
  assert (Hr : ranges (lobby w') [EmptyString]) by (vm_compute; reflexivity).
  destruct (empty_id_breaks_rendering Point origin colonUnmarshal
              w 0%nat st ":x" "x" [EmptyString] 0%nat 0%nat [false; true])
    as ((o & Ho & Hid & _) & Hpanic);
    try reflexivity; try exact Hr.
  - vm_compute. lia.
  - vm_compute. lia.
  - intros k o H. unfold w in H. simpl in H. rewrite lookup_empty in H.
    discriminate H.
  - split; [exact Hst|]. split; [exact Hu|]. split; [exact Hnew|].
    split; [exact Hcol|]. split; [exact Hr|]. split; [|exact Hpanic].
    fold w' in Ho. rewrite Ho. simpl. rewrite Hid. reflexivity.
Defined.

(** Two octapods on different cells. *)
Abbreviation twoApart :=
  (mkLobby [] smallMaze
     (<[ "a1" := mkOctapod "a1" "x" (Some 0%nat) (mkPoint 0 0) 0 [] ]>
        {[ "b2" := mkOctapod "b2" "y" (Some 1%nat) (mkPoint 1 1) 0 [] ]})
     true : Lobby Point).

Lemma DisplayMaze_deterministic_example :
  apart twoApart
  /\ ranges twoApart ["a1"; "b2"]
  /\ ranges twoApart ["b2"; "a1"]
  /\ DisplayMaze ["a1"; "b2"] EmptyString twoApart
     = DisplayMaze ["b2"; "a1"] EmptyString twoApart.
Proof.
  assert (H1 : apart twoApart) by compute_done.
  assert (H2 : ranges twoApart ["a1"; "b2"]) by compute_done.
  assert (H3 : ranges twoApart ["b2"; "a1"]) by compute_done.
  split; [exact H1|]. split; [exact H2|]. split; [exact H3|].
  exact (DisplayMaze_deterministic Point twoApart ["a1"; "b2"] ["b2"; "a1"]
           EmptyString H1 H2 H3).
Defined.

(** Two octapods on the same cell: the byte rendered on the cell is the one
    of the octapod that the range visits last, and two orders of the range
    give two boards. *)
Lemma DisplayMaze_shared_cell_differs :
  let l : Lobby Point :=
    mkLobby [] smallMaze
      (<[ "a1" := mkOctapod "a1" "x" (Some 0%nat) (mkPoint 0 0) 0 [] ]>
         {[ "b2" := mkOctapod "b2" "y" (Some 1%nat) (mkPoint 0 0) 0 [] ]})
      true in
  ranges l ["a1"; "b2"] /\ ranges l ["b2"; "a1"]
  /\ ~ apart l
  /\ DisplayMaze ["a1"; "b2"] EmptyString l
     <> DisplayMaze ["b2"; "a1"] EmptyString l.
Proof.
  intros l. split; [compute_done|]. split; [compute_done|].
  split; [compute_done|]. vm_compute. discriminate.
Qed.

(** * Examples for the further properties *)

Arguments steadyState {Reading}.
Arguments hidden {Reading}.
Arguments cycleTurn {Reading}.
Arguments sendErrorAndClose {Reading}.
Arguments DiscordBot {Reading}.
Arguments Position {Reading}.
Arguments mkWorld {Reading}.

(** Two connections accepted whose first messages carry the same id in
    two cases. *)
Abbreviation caseConns :=
  ({[ 0%nat := accepted (ReadGives TextMessage "A1:x");
      1%nat := accepted (ReadGives TextMessage "a1:x") ]}
   : gmap ConnPtr ConnState).

(** The octapod a1 registered, and taken its connection after two cycles. *)
Abbreviation lapsedAgain :=
  (exec (calls sense origin colonUnmarshal
           [JoinCall (Upgraded 0%nat);
            UpdateCall ["a1"]; TimeoutCall ["a1"];
            UpdateCall ["a1"]; TimeoutCall ["a1"]])
        (started smallMaze caseConns) : World Point).

(** The octapod a1 in a registry written out. *)
Abbreviation alone :=
  (mkWorld
     (mkLobby [] smallMaze
        {[ "a1" := mkOctapod "a1" "x" (Some 0%nat) (mkPoint 0 0) 0 [] ]} true)
     twoConns [] [] 1%nat [] : World Point).



Lemma rejected_handshake_still_runs_example :
  let w := registered in
  let st := accepted (ReadGives TextMessage "A1:y") in
  let oct := mkOctapod "a1" "x" (Some 0%nat) (mkPoint 0 0) 0 [] in
  let w' := exec (HandleJoin origin colonUnmarshal (Upgraded 1%nat)) w in
  conns w !! 1%nat = Some st
  /\ colonUnmarshal "A1:y" = inr (mkAuth "A1" "y")
  /\ Octapods (lobby w) !! "a1" = Some oct
  /\ handoffs w = ["a1"]
  /\ handoffs w' = ["a1"; "a1"]
  /\ lobby w' = lobby w.
Proof.
  intros w st oct w'.
  assert (H1 : conns w !! 1%nat = Some st) by reflexivity.
  assert (H2 : colonUnmarshal "A1:y" = inr (mkAuth "A1" "y")) by reflexivity.
  assert (H3 : Octapods (lobby w) !! "a1" = Some oct) by reflexivity.
  destruct (rejected_handshake_still_runs Point origin colonUnmarshal
              w 1%nat st "A1:y" (mkAuth "A1" "y") oct
              H1 eq_refl eq_refl H2 H3 (or_introl eq_refl))
    as (Hh & Hl & _).
  split; [exact H1|]. split; [exact H2|]. split; [exact H3|].
  split; [reflexivity|]. split; [exact Hh | exact Hl].
Defined.

Lemma registration_runs_twice_example :
  let w : World Point := started smallMaze twoConns in
  let st := accepted (ReadGives TextMessage "A1:x") in
  conns w !! 0%nat = Some st
  /\ colonUnmarshal "A1:x" = inr (mkAuth "A1" "x")
  /\ Octapods (lobby w) !! "a1" = None
  /\ handoffs (exec (HandleJoin origin colonUnmarshal (Upgraded 0%nat)) w)
     = ["a1"; "a1"].
Proof.
  intros w st.
  assert (H1 : conns w !! 0%nat = Some st) by reflexivity.
  assert (H2 : colonUnmarshal "A1:x" = inr (mkAuth "A1" "x")) by reflexivity.
  assert (H3 : Octapods (lobby w) !! "a1" = None) by reflexivity.
  split; [exact H1|]. split; [exact H2|]. split; [exact H3|].
  exact (registration_runs_twice Point origin colonUnmarshal
           w 0%nat st "A1:x" (mkAuth "A1" "x") H1 eq_refl eq_refl H2 H3).
Defined.

Lemma reconnection_attaches_example :
  let w := lapsedAgain in
  let st := accepted (ReadGives TextMessage "a1:x") in
  let oct := mkOctapod "a1" "x" None (mkPoint 0 0) 2
               [Some (mkPoint 0 0); None; Some (mkPoint 0 0); None] in
  let w' := exec (HandleJoin origin colonUnmarshal (Upgraded 1%nat)) w in
  conns w !! 1%nat = Some st
  /\ Octapods (lobby w) !! "a1" = Some oct
  /\ Octapods (lobby w') = <["a1" := set_Conn Point (Some 1%nat) oct]>
                             (Octapods (lobby w))
  /\ conns w' = conns w.
Proof.
  intros w st oct w'.
  assert (H1 : conns w !! 1%nat = Some st) by (vm_compute; reflexivity).
  assert (H2 : Octapods (lobby w) !! "a1" = Some oct)
    by (vm_compute; reflexivity).
  destruct (reconnection_attaches Point origin colonUnmarshal
              w 1%nat st "a1:x" (mkAuth "a1" "x") oct
              H1 eq_refl eq_refl eq_refl H2 eq_refl eq_refl)
    as (Hreg & Hcs & _).
  split; [exact H1|]. split; [exact H2|]. split; [exact Hreg | exact Hcs].
Defined.


Lemma full_cycle_evicts_example :
  let w := registered in
  let o := mkOctapod "a1" "x" (Some 0%nat) (mkPoint 0 0) 0 [] in
  let w1 := exec (Update sense ["a1"]) w in
  let w2 := exec (TimeoutUpdate ["a1"]) w1 in
  ranges (lobby w) ["a1"] /\ ranges (lobby w1) ["a1"]
  /\ Octapods (lobby w) !! "a1" = Some o
  /\ exists o', Octapods (lobby w2) !! "a1" = Some o'
       /\ InactiveCount o' = 1%Z /\ Conn o' = Some 0%nat.
Proof.
  intros w o w1 w2.
  assert (H1 : ranges (lobby w) ["a1"]) by compute_done.
  assert (H2 : ranges (lobby w1) ["a1"]) by compute_done.
  assert (H3 : Octapods (lobby w) !! "a1" = Some o) by reflexivity.
  split; [exact H1|]. split; [exact H2|]. split; [exact H3|].
  destruct (full_cycle_evicts Point sense w ["a1"] ["a1"] "a1" o 0%nat
              H1 H2 H3 eq_refl) as (o' & Ho' & Hn & _ & Hc).
  - vm_compute. split; [discriminate | reflexivity].
  - exists o'. split; [exact Ho'|]. split; [exact Hn | exact Hc].
Defined.

Lemma reconnected_is_evicted_again_example :
  let w := lapsedAgain in
  let o := mkOctapod "a1" "x" None (mkPoint 0 0) 2
             [Some (mkPoint 0 0); None; Some (mkPoint 0 0); None] in
  let st := accepted (ReadGives TextMessage "a1:x") in
  let w1 := exec (identifyOctapod origin "a1" "x" 1%nat) w in
  let w2 := exec (Update sense ["a1"]) w1 in
  let w3 := exec (TimeoutUpdate ["a1"]) w2 in
  Octapods (lobby w) !! "a1" = Some o
  /\ conns w !! 1%nat = Some st
  /\ ranges (lobby w1) ["a1"] /\ ranges (lobby w2) ["a1"]
  /\ Conn <$> Octapods (lobby w3) !! "a1" = Some None
  /\ conns w3 !! 1%nat = Some (shut st).
Proof.
  intros w o st w1 w2 w3.
  assert (H1 : Octapods (lobby w) !! "a1" = Some o)
    by (vm_compute; reflexivity).
  assert (H2 : conns w !! 1%nat = Some st) by (vm_compute; reflexivity).
  assert (H3 : ranges (lobby w1) ["a1"]) by compute_done.
  assert (H4 : ranges (lobby w2) ["a1"]) by compute_done.
  destruct (reconnected_is_evicted_again Point sense origin
              w "a1" "x" 1%nat o st ["a1"] ["a1"] H1 eq_refl eq_refl H2)
    as (_ & Hn & Hc); [|exact H3|exact H4|].
  - vm_compute. split; [discriminate | reflexivity].
  - split; [exact H1|]. split; [exact H2|]. split; [exact H3|].
    split; [exact H4|]. split; [exact Hn | exact Hc].
Defined.

Lemma DisplayMaze_board_size_example :
  let s := "```" ++ LF ++ "a   # " ++ LF ++ "#   # " ++ LF ++ "# # # " ++ LF
           ++ "```" in
  DisplayMaze ["a1"] EmptyString (lobby alone) = Returns s
  /\ String.length s = 28%nat.
Proof.
  intros s.
  assert (H : DisplayMaze ["a1"] EmptyString (lobby alone) = Returns s)
    by reflexivity.
  split; [exact H|].
  destruct (DisplayMaze_board_size Point (lobby alone) ["a1"] EmptyString s H)
    as [E|[E|E]]; [discriminate E | discriminate E | exact E].
Defined.

(** Two octapods on one cell. *)
Abbreviation twoShared :=
  (mkLobby [] smallMaze
     (<[ "a1" := mkOctapod "a1" "x" (Some 0%nat) (mkPoint 0 0) 0 [] ]>
        {[ "b2" := mkOctapod "b2" "y" (Some 1%nat) (mkPoint 0 0) 0 [] ]})
     true : Lobby Point).


Lemma DisplayMaze_hides_example :
  let o := mkOctapod "a1" "x" (Some 0%nat) (mkPoint 0 1) 0 [] in
  let l : Lobby Point := mkLobby [] smallMaze {[ "a1" := o ]} true in
  ranges l ["a1"]
  /\ Octapods l !! "a1" = Some o
  /\ hidden smallMaze o
  /\ DisplayMaze ["a1"] EmptyString l
     = Returns ("```" ++ LF ++ "    # " ++ LF ++ "#   # " ++ LF ++ "# # # "
                ++ LF ++ "```").
Proof.
  intros o l.
  assert (H1 : ranges l ["a1"]) by compute_done.
  assert (H2 : Octapods l !! "a1" = Some o) by reflexivity.
  assert (H3 : hidden smallMaze o).
  { intros x y column Hp _ _ Hc Hcell. injection Hp as Hx Hy.
    assert (x = 0%nat) as -> by lia. assert (y = 1%nat) as -> by lia.
    simpl in Hc. injection Hc as <-. discriminate Hcell. }
  split; [exact H1|]. split; [exact H2|]. split; [exact H3|].
  rewrite (DisplayMaze_hides Point l ["a1"] "a1" o H1 H2).
  - reflexivity.
  - intros k' o' H. unfold l in H. simpl in H.
    apply lookup_singleton_Some in H as [<- <-]. exact H3.
Defined.

Lemma DisplayMaze_uncovered_panics_example :
  let o := mkOctapod "a1" "x" (Some 0%nat) (mkPoint 0 0) 0 [] in
  let l : Lobby Point :=
    mkLobby [] (mkMaze 3 2 [[false; true]; [false; false]])
            {[ "a1" := o ]} true in
  ranges l ["a1"]
  /\ Octapods l !! "a1" = Some o
  /\ cells (maze l) !! 2%nat = None
  /\ DisplayMaze ["a1"] EmptyString l = Panics.
Proof.
  intros o l.
  assert (H1 : ranges l ["a1"]) by compute_done.
  assert (H2 : Octapods l !! "a1" = Some o) by reflexivity.
  split; [exact H1|]. split; [exact H2|]. split; [reflexivity|].
  apply (DisplayMaze_uncovered_panics Point l ["a1"] "a1" o 2 0 H1 H2).
  - vm_compute. lia.
  - vm_compute. lia.
  - reflexivity.
Defined.


Lemma sendErrorAndClose_open_example :
  let st := dropped (ReadFails "unexpected EOF") "broken pipe" in
  let w : World Point := started smallMaze {[ 0%nat := st ]} in
  let w' := exec (sendErrorAndClose 0%nat "Invalid authentication message format.") w in
  conns w !! 0%nat = Some st
  /\ closed st = false
  /\ closed <$> conns w' !! 0%nat = Some false
  /\ logs w' = ["Error sending error message: broken pipe"].
Proof.
  intros st w w'.
  assert (H1 : conns w !! 0%nat = Some st) by reflexivity.
  assert (H2 : closed st = false) by reflexivity.
  destruct (sendErrorAndClose_open Point w 0%nat
              "Invalid authentication message format." st H1 H2)
    as (_ & _ & Hc & Hl).
  split; [exact H1|]. split; [exact H2|]. split; [|exact Hl].
  exact (f_equal (fmap closed) Hc).
Defined.
